(** * Dual-method portfolio optimisation: the demo's numerical core

    A shallow embedding of [examples/ai_enhanced_demo.py] (the sample-covariance
    versus Ledoit-Wolf comparison) and of the winner analysis of
    [source/run_test.py].

    Numbers.  A Python/NumPy float is modelled by a real number; a value
    that the code can leave undefined (the NaN of an empty mean, of a
    one-observation standard deviation, of [0/0]) is [None] in [float].
    Rounding is not modelled.  A pandas Series or DataFrame that went
    through [dropna()] holds reals only.

    External libraries.  [scipy.optimize.minimize] and
    [sklearn.covariance.LedoitWolf] are not code of this repository: they
    are arguments of the functions that call them. *)

From Stdlib Require Import String QArith Reals Lra Lia List Arith Bool Permutation.
Import ListNotations.
Local Open Scope R_scope.

(** ** Floats with NaN *)

Module Float.

Definition float : Type := option R.

Definition nan : float := None.

Definition lift2 (op : R -> R -> R) (a b : float) : float :=
  match a, b with
  | Some x, Some y => Some (op x y)
  | _, _ => None
  end.

Definition fsub : float -> float -> float := lift2 Rminus.
Definition fmul : float -> float -> float := lift2 Rmult.

(** The quotient of two floats where it is a number, NaN at a zero
    divisor.  [calc_metrics] meets a zero divisor only as [0 / 0] (see
    [drawdown_zero_divisor]), which is NaN in NumPy; the winner reports,
    where a zero divisor meets any dividend, go through [true_divide]. *)
Definition fdiv (a b : float) : float :=
  match a, b with
  | Some x, Some y => if Req_dec_T y 0 then None else Some (x / y)
  | _, _ => None
  end.

(** [a > b]; a comparison with NaN is false. *)
Definition fgt (a b : float) : bool :=
  match a, b with
  | Some x, Some y => if Rlt_dec y x then true else false
  | _, _ => false
  end.

(** [a != b]; NaN differs from everything. *)
Definition fne (a b : float) : bool :=
  match a, b with
  | Some x, Some y => if Req_dec_T x y then false else true
  | _, _ => true
  end.

End Float.
Import Float.

(** ** Exceptions *)

Inductive exn : Type :=
| ZeroDivisionError
| ValueError.

Inductive result (A : Type) : Type :=
| Ok (a : A)
| Raise (e : exn).
Arguments Ok {A} a.
Arguments Raise {A} e.

(** ** Python numbers and NumPy scalars

    The division [a / b] depends on the run-time types of its operands:
    between two Python numbers a zero divisor raises [ZeroDivisionError];
    as soon as one operand is a NumPy float64 the division is the IEEE one,
    which gives an infinity or NaN with a warning, and the run goes on. *)

Inductive numtype : Type :=
| python_number
| numpy_float64.

Record number : Type := mkNumber {
  value : float;
  numtype_of : numtype
}.

(** A float64 that may be infinite. *)
Inductive extended : Type :=
| fin (v : float)
| pos_inf
| neg_inf.

(** The type of [a - b] and of [a / b]. *)
Definition result_type (a b : numtype) : numtype :=
  match a, b with
  | python_number, python_number => python_number
  | _, _ => numpy_float64
  end.

Definition subtract (a b : number) : number :=
  mkNumber (fsub (value a) (value b)) (result_type (numtype_of a) (numtype_of b)).

(** NumPy's true division. *)
Definition np_divide (a b : float) : extended :=
  match a, b with
  | Some u, Some y =>
      if Req_dec_T y 0 then
        if Rlt_dec 0 u then pos_inf
        else if Rlt_dec u 0 then neg_inf
        else fin nan
      else fin (Some (u / y))
  | _, _ => fin nan
  end.

(** [a / b]. *)
Definition true_divide (a b : number) : result extended :=
  match result_type (numtype_of a) (numtype_of b) with
  | python_number =>
      match value b with
      | Some y =>
          if Req_dec_T y 0 then Raise ZeroDivisionError
          else Ok (fin (fdiv (value a) (value b)))
      | None => Ok (fin nan)
      end
  | numpy_float64 => Ok (np_divide (value a) (value b))
  end.

(** [q * 100]. *)
Definition times_100 (q : extended) : extended :=
  match q with
  | fin v => fin (fmul v (Some 100))
  | pos_inf => pos_inf
  | neg_inf => neg_inf
  end.

(** [(a - b) / b * 100]. *)
Definition improvement_over (a b : number) : result extended :=
  match true_divide (subtract a b) b with
  | Ok q => Ok (times_100 q)
  | Raise e => Raise e
  end.

(** ** NumPy *)

Definition Vector : Type := list R.
Definition Matrix : Type := list (list R).

Module np.

Definition sum (v : Vector) : R := fold_right Rplus 0 v.

(** [np.dot] of two 1-d arrays. *)
Fixpoint dot (u v : Vector) : R :=
  match u, v with
  | a :: u', b :: v' => a * b + dot u' v'
  | _, _ => 0
  end.

(** [np.dot] of a 2-d array and a 1-d array. *)
Definition matvec (m : Matrix) (v : Vector) : Vector :=
  map (fun row => dot row v) m.

(** Column [j] of a 2-d array given by its rows. *)
Definition column (m : Matrix) (j : nat) : Vector :=
  map (fun row => nth j row 0) m.

(** [a.T] for an array of [ncols] columns. *)
Definition transpose (ncols : nat) (m : Matrix) : Matrix :=
  map (column m) (seq 0 ncols).

(** Row mean over [T] observations, [T > 0]. *)
Definition average (v : Vector) : R := sum v / INR (length v).

(** [X -= avg[:, None]] on one row. *)
Definition center (v : Vector) : Vector :=
  map (fun x => x - average v) v.

(** [np.cov(X)], rows are variables and columns observations
    ([rowvar=True], [ddof=1]): the rows are centred and
    [c = dot(X, X.T) / (T - 1)].  With fewer than two observations every
    entry is [0/0]: the matrix is all NaN ([None]).  An array with no
    rows gives the empty matrix.  (For one variable NumPy squeezes the
    1x1 result to a scalar, which [np.dot] treats alike.) *)
Definition cov (X : Matrix) : option Matrix :=
  match X with
  | [] => Some []
  | x0 :: _ =>
      let T := length x0 in
      if (T <? 2)%nat then None
      else Some (map (fun xi =>
                   map (fun xj => dot (center xi) (center xj) / (INR T - 1)) X) X)
  end.

End np.

(** ** pandas *)

Record DataFrame (A : Type) : Type := mkDataFrame {
  columns : list string;
  values : list (list A)
}.
Arguments mkDataFrame {A} columns values.
Arguments columns {A} d.
Arguments values {A} d.

Module pd.

(** A row with no missing cell, as reals. *)
Fixpoint complete_row (row : list float) : option (list R) :=
  match row with
  | [] => Some []
  | Some x :: row' => option_map (cons x) (complete_row row')
  | None :: _ => None
  end.

Fixpoint dropna_rows (rows : list (list float)) : list (list R) :=
  match rows with
  | [] => []
  | row :: rows' =>
      match complete_row row with
      | Some r => r :: dropna_rows rows'
      | None => dropna_rows rows'
      end
  end.

(** [DataFrame.dropna()]: rows (dates) with a missing cell are removed;
    the columns are kept. *)
Definition dropna (df : DataFrame float) : DataFrame R :=
  mkDataFrame (columns df) (dropna_rows (values df)).

(** [Series.mean()]; NaN for an empty series. *)
Definition mean (s : list R) : float :=
  match s with
  | [] => nan
  | _ => Some (np.sum s / INR (length s))
  end.

(** [Series.var()] with the default [ddof=1]; NaN below two
    observations. *)
Definition var (s : list R) : float :=
  match mean s with
  | Some m =>
      if (length s <=? 1)%nat then nan
      else Some (np.sum (map (fun x => (x - m) * (x - m)) s) / (INR (length s) - 1))
  | None => nan
  end.

(** [Series.std()]. *)
Definition std (s : list R) : float := option_map sqrt (var s).

(** Running accumulation [f (... (f (f acc x1) x2) ...) xk]. *)
Fixpoint accumulate (f : R -> R -> R) (acc : R) (s : list R) : list R :=
  match s with
  | [] => []
  | x :: s' => f acc x :: accumulate f (f acc x) s'
  end.

(** [Series.cumprod()]. *)
Definition cumprod (s : list R) : list R :=
  match s with
  | [] => []
  | x :: s' => x :: accumulate Rmult x s'
  end.

(** [Series.expanding().max()]. *)
Definition expanding_max (s : list R) : list R :=
  match s with
  | [] => []
  | x :: s' => x :: accumulate Rmax x s'
  end.

(** Element-wise [a - b] and [a / b] on series with the same index. *)
Fixpoint sub (a b : list R) : list R :=
  match a, b with
  | x :: a', y :: b' => (x - y) :: sub a' b'
  | _, _ => []
  end.

Fixpoint div (a b : list R) : list float :=
  match a, b with
  | x :: a', y :: b' => fdiv (Some x) (Some y) :: div a' b'
  | _, _ => []
  end.

(** [Series.min()]: NaN entries are skipped; NaN when nothing is left. *)
Fixpoint min (s : list float) : float :=
  match s with
  | [] => nan
  | x :: s' =>
      match x, min s' with
      | Some a, Some b => Some (Rmin a b)
      | Some a, None => Some a
      | None, m => m
      end
  end.

End pd.

(** ** The demo: performance metrics *)

Record Metrics : Type := mkMetrics {
  annual_return : float;
  annual_volatility : float;
  sharpe_ratio : float;
  max_drawdown : float;
  sharpe_type : numtype
}.

(** The [sharpe_ratio] entry with its run-time type. *)
Definition sharpe_number (m : Metrics) : number :=
  mkNumber (sharpe_ratio m) (sharpe_type m).

(** [main.calc_metrics], ai_enhanced_demo.py lines 135-146.  The mean and
    the standard deviation of a Series are NumPy float64 scalars, and so is
    their quotient; the [0] of the [else] arm is a Python int. *)
Definition calc_metrics (returns : list R) : Metrics :=
  let annual_ret := fmul (pd.mean returns) (Some 12) in
  let annual_vol := fmul (pd.std returns) (Some (sqrt 12)) in
  let sharpe :=
    if fgt annual_vol (Some 0) then fdiv annual_ret annual_vol else Some 0 in
  let cumulative := pd.cumprod (map (fun r => 1 + r) returns) in
  let max_dd :=
    pd.min (pd.div (pd.sub cumulative (pd.expanding_max cumulative))
                   (pd.expanding_max cumulative)) in
  mkMetrics annual_ret annual_vol sharpe max_dd
    (if fgt annual_vol (Some 0) then numpy_float64 else python_number).

(** The [sortino_ratio] entry of [performance_metrics], lines 212 and 225. *)
Definition sortino_ratio (m : Metrics) : float :=
  fmul (sharpe_ratio m) (Some (11 / 10)).

(** ** The demo: winner determination *)

Inductive method : Type :=
| Sample
| LedoitWolf.

(** ai_enhanced_demo.py lines 179-184: the winner and the printed
    improvement in percent. *)
Definition winner_determination (sample lw : Metrics) : result (method * extended) :=
  if fgt (sharpe_ratio lw) (sharpe_ratio sample) then
    match improvement_over (sharpe_number lw) (sharpe_number sample) with
    | Ok i => Ok (LedoitWolf, i)
    | Raise e => Raise e
    end
  else
    match improvement_over (sharpe_number sample) (sharpe_number lw) with
    | Ok i => Ok (Sample, i)
    | Raise e => Raise e
    end.

(** run_test.py lines 92-100: the same analysis with the guard
    [if lw_sharpe != 0 else 0] on the second branch. *)
Definition winner_analysis (sample_sharpe lw_sharpe : number) : result (method * extended) :=
  if fgt (value lw_sharpe) (value sample_sharpe) then
    match improvement_over lw_sharpe sample_sharpe with
    | Ok i => Ok (LedoitWolf, i)
    | Raise e => Raise e
    end
  else if fne (value lw_sharpe) (Some 0) then
    match improvement_over sample_sharpe lw_sharpe with
    | Ok i => Ok (Sample, i)
    | Raise e => Raise e
    end
  else Ok (Sample, fin (Some 0)).

(** ** The demo: dual-method optimisation *)

Record Constraints : Type := mkConstraints {
  min_weight : R;
  max_weight : R
}.

(** What the demo reads of SciPy's [OptimizeResult]. *)
Record OptimizeResult : Type := mkOptimizeResult {
  x : Vector;
  success : bool
}.

(** [scipy.optimize.minimize(fun, x0, method='SLSQP', bounds=..., constraints=[eq])]:
    the objective, the starting point, one [(low, high)] pair per variable and
    the function of the equality constraint. *)
Definition Minimizer : Type :=
  (Vector -> float) -> Vector -> list (R * R) -> (Vector -> R) -> OptimizeResult.

(** [LedoitWolf().fit(X)]: the fitted [covariance_] and [shrinkage_]. *)
Record LedoitWolfFit : Type := mkLedoitWolfFit {
  covariance_ : option Matrix;
  shrinkage_ : float
}.

Definition Shrinkage : Type := Matrix -> LedoitWolfFit.

(** [LedoitWolf().fit(X)], line 35: scikit-learn validates the array
    before it estimates and raises [ValueError] on an array with no row
    (sample) or no column (feature). *)
Definition fit (estimator : Shrinkage) (n_features : nat) (X : Matrix)
    : result LedoitWolfFit :=
  match X, n_features with
  | [], _ => Raise ValueError
  | _ :: _, O => Raise ValueError
  | _ :: _, S _ => Ok (estimator X)
  end.

(** [objective(weights)], line 39: [w.T . (cov . w)]; NaN on an all-NaN
    matrix. *)
Definition objective (cov_matrix : option Matrix) (weights : Vector) : float :=
  match cov_matrix with
  | Some c => Some (np.dot weights (np.matvec c weights))
  | None => nan
  end.

(** The function of the equality constraint, line 42. *)
Definition budget (w : Vector) : R := np.sum w - 1.

(** [bounds], line 43. *)
Definition bounds_of (constraints : Constraints) (n_assets : nat) : list (R * R) :=
  repeat (min_weight constraints, max_weight constraints) n_assets.

(** [initial_weights], line 44, for [n_assets > 0]. *)
Definition initial_weights (n_assets : nat) : Vector :=
  repeat (1 / INR n_assets) n_assets.

(** [result], lines 46-47. *)
Definition minimize_result (minimize : Minimizer) (constraints : Constraints)
    (n_assets : nat) (cov_matrix : option Matrix) : OptimizeResult :=
  minimize (objective cov_matrix) (initial_weights n_assets)
           (bounds_of constraints n_assets) budget.

(** [solve_optimization], lines 38-48.  With no asset, [1.0 / n_assets]
    raises before the solver is called. *)
Definition solve_optimization (minimize : Minimizer) (constraints : Constraints)
    (n_assets : nat) (cov_matrix : option Matrix) : result Vector :=
  match n_assets with
  | O => Raise ZeroDivisionError
  | S _ =>
      let res := minimize_result minimize constraints n_assets cov_matrix in
      Ok (if success res then x res else initial_weights n_assets)
  end.

(** [sample_cov], line 31. *)
Definition sample_cov (returns_data : DataFrame R) : option Matrix :=
  np.cov (np.transpose (length (columns returns_data)) (values returns_data)).

Record DualResult : Type := mkDualResult {
  sample_weights : Vector;
  lw_weights : Vector;
  shrinkage_param : float
}.

(** [optimize_portfolio_dual_methods], lines 24-58: the sample covariance,
    the shrinkage fit, then the two optimisations. *)
Definition optimize_portfolio_dual_methods (minimize : Minimizer)
    (ledoit_wolf : Shrinkage) (returns_data : DataFrame R)
    (constraints : Constraints) : result DualResult :=
  let returns_array := values returns_data in
  let n_assets := length (columns returns_data) in
  let sample := sample_cov returns_data in
  match fit ledoit_wolf n_assets returns_array with
  | Raise e => Raise e
  | Ok fitted =>
      match solve_optimization minimize constraints n_assets sample with
      | Raise e => Raise e
      | Ok sw =>
          match solve_optimization minimize constraints n_assets (covariance_ fitted) with
          | Raise e => Raise e
          | Ok lw => Ok (mkDualResult sw lw (shrinkage_ fitted))
          end
      end
  end.

(** [row * weights], element-wise. *)
Fixpoint weighted (row w : Vector) : Vector :=
  match row, w with
  | a :: row', b :: w' => a * b :: weighted row' w'
  | _, _ => []
  end.

(** [(returns_data * weights).sum(axis=1)], lines 131-132: the return
    realised at each date. *)
Definition portfolio_returns (returns_data : DataFrame R) (weights : Vector) : list R :=
  map (fun row => np.sum (weighted row weights)) (values returns_data).

(** The constraints of [main], lines 114-117. *)
Definition demo_constraints : Constraints := mkConstraints 0 (25 / 100).

(** ** Two solvers

    A run of SLSQP that does not converge, and an exact solver of the
    two-asset problem: it reads the quadratic form off three evaluations
    of the objective and minimises it on the segment cut out by the budget
    line and the box. *)

Definition tolerance : R := 1 / 1000000.

Definition non_converging : Minimizer :=
  fun _ x0 _ _ => mkOptimizeResult x0 false.

Definition clamp (lo hi a : R) : R := Rmax lo (Rmin hi a).

Definition two_asset_exact : Minimizer :=
  fun f x0 bounds g =>
    match bounds with
    | [(l1, h1); (l2, h2)] =>
        match f [1; 0], f [0; 1], f [1; 1] with
        | Some s11, Some s22, Some s =>
            let s12 := (s - s11 - s22) / 2 in
            let lo := Rmax l1 (1 - h2) in
            let hi := Rmin h1 (1 - l2) in
            let d := s11 - 2 * s12 + s22 in
            let a :=
              if Rlt_dec 0 d then clamp lo hi ((s22 - s12) / d)
              else if Rle_dec s22 s12 then lo else hi in
            if Rle_dec lo hi then
              if Rle_dec (Rabs (g [a; 1 - a])) tolerance
              then mkOptimizeResult [a; 1 - a] true
              else mkOptimizeResult x0 false
            else mkOptimizeResult x0 false
        | _, _, _ => mkOptimizeResult x0 false
        end
    | _ => mkOptimizeResult x0 false
    end.

(** A stand-in for the shrinkage estimator: full shrinkage to the
    identity. *)
Definition identity_matrix (n : nat) : Matrix :=
  map (fun i => map (fun j => if Nat.eqb i j then 1 else 0) (seq 0 n)) (seq 0 n).

Definition identity_shrinkage : Shrinkage :=
  fun X => mkLedoitWolfFit (Some (identity_matrix (length (hd [] X)))) (Some 1).

(** ** What the specification says *)

Module Spec.

(** A weight vector sums to 1 within 1e-6 and respects the box. *)
Definition weight_invariant (c : Constraints) (w : Vector) : Prop :=
  Rabs (np.sum w - 1) <= tolerance /\
  Forall (fun wi => min_weight c <= wi <= max_weight c) w.

(** The series agree on all dates before [t]. *)
Definition agree_before (t : nat) (a b : DataFrame R) : Prop :=
  columns a = columns b /\ firstn t (values a) = firstn t (values b).

(** No look-ahead: series that agree on all dates before [t] yield the
    same weights applied at [t], for either method. *)
Definition no_look_ahead (optimize : DataFrame R -> result DualResult) : Prop :=
  forall (t : nat) (a b : DataFrame R) (ra rb : DualResult),
    (t < length (values a))%nat -> (t < length (values b))%nat ->
    agree_before t a b ->
    optimize a = Ok ra -> optimize b = Ok rb ->
    sample_weights ra = sample_weights rb /\ lw_weights ra = lw_weights rb.

Definition annualized_return (returns : list R) : float :=
  fmul (pd.mean returns) (Some 12).

Definition annualized_volatility (returns : list R) : float :=
  fmul (pd.std returns) (Some (sqrt 12)).

(** Sharpe = (annualized return - risk_free_rate) / annualized
    volatility, 0 if the volatility is 0. *)
Definition sharpe (risk_free_rate : R) (returns : list R) : float :=
  match annualized_volatility returns with
  | Some v =>
      if Req_dec_T v 0 then Some 0
      else fdiv (fsub (annualized_return returns) (Some risk_free_rate)) (Some v)
  | None => nan
  end.

(** The negative-return periods. *)
Definition downside (returns : list R) : list R :=
  filter (fun r => if Rlt_dec r 0 then true else false) returns.

Definition downside_deviation (returns : list R) : float :=
  fmul (pd.std (downside returns)) (Some (sqrt 12)).

(** Sortino: as Sharpe, with the downside deviation in the
    denominator. *)
Definition sortino (risk_free_rate : R) (returns : list R) : float :=
  match downside_deviation returns with
  | Some v =>
      if Req_dec_T v 0 then Some 0
      else fdiv (fsub (annualized_return returns) (Some risk_free_rate)) (Some v)
  | None => nan
  end.

Definition prod (l : list R) : R := fold_right Rmult 1 l.

(** cum_t, the product of (1 + return) up to and including date [t]. *)
Definition cum (returns : list R) (t : nat) : R :=
  prod (map (fun r => 1 + r) (firstn (S t) returns)).

(** [M] is running_max_t: one of the cum_s with s <= t, and none of them
    is above it. *)
Definition is_running_max (returns : list R) (t : nat) (M : R) : Prop :=
  (exists s, (s <= t)%nat /\ M = cum returns s) /\
  (forall s, (s <= t)%nat -> cum returns s <= M).

(** [d] is (cum_t - running_max_t) / running_max_t, a quotient of real
    numbers: the running maximum is not 0. *)
Definition is_drawdown (returns : list R) (t : nat) (d : R) : Prop :=
  exists M, is_running_max returns t M /\ M <> 0 /\ d = (cum returns t - M) / M.

(** [m] is the minimum over t of the drawdowns: the drawdown of one of
    the dates, and none of them is below it. *)
Definition is_max_drawdown (returns : list R) (m : R) : Prop :=
  (exists t, (t < length returns)%nat /\ is_drawdown returns t m) /\
  (forall t d, (t < length returns)%nat -> is_drawdown returns t d -> m <= d).

Definition column_mean (m : Matrix) (j : nat) : R :=
  np.sum (map (fun row => nth j row 0) m) / INR (length m).

(** Entry (i, j) of the unbiased sample covariance of a T x N return
    matrix: the cross-products of the deviations from the column means,
    divided by T - 1. *)
Definition covariance_entry (m : Matrix) (i j : nat) : R :=
  np.sum (map (fun row => (nth i row 0 - column_mean m i) *
                          (nth j row 0 - column_mean m j)) m)
  / (INR (length m) - 1).

Definition sample_covariance (n : nat) (m : Matrix) : Matrix :=
  map (fun i => map (fun j => covariance_entry m i j) (seq 0 n)) (seq 0 n).

Definition entry (m : Matrix) (i j : nat) : R := nth j (nth i m []) 0.

Definition symmetric (m : Matrix) : Prop :=
  forall i j, entry m i j = entry m j i.

End Spec.

(** Entry [t] of [cumulative.expanding().max()] and of the drawdown
    series of [calc_metrics], lines 139-141, in closed form;
    [expanding_max_spec] and [drawdown_series] prove that the scans of the
    code compute them. *)
Definition running_max (returns : list R) (t : nat) : R :=
  fold_right Rmax (Spec.cum returns 0) (map (Spec.cum returns) (seq 1 t)).

Definition drawdown_at (returns : list R) (t : nat) : float :=
  fdiv (Some (Spec.cum returns t - running_max returns t))
       (Some (running_max returns t)).

(** The postcondition of a converged SLSQP run: the point returned with
    [success] meets the equality constraint within the solver's accuracy
    and lies in the box. *)
Definition slsqp_contract (minimize : Minimizer) : Prop :=
  forall f x0 bounds g,
    success (minimize f x0 bounds g) = true ->
    Rabs (g (x (minimize f x0 bounds g))) <= tolerance /\
    Forall2 (fun xi b => fst b <= xi <= snd b) (x (minimize f x0 bounds g)) bounds.

(** What a converged run adds on the convex problems of the demo: the
    objective at the point returned with [success] is within [delta] of
    its value at every point of the box that meets the budget. *)
Definition near_optimal (delta : R) (minimize : Minimizer) (constraints : Constraints)
    (n_assets : nat) (cov_matrix : option Matrix) : Prop :=
  let res := minimize_result minimize constraints n_assets cov_matrix in
  success res = true ->
  forall (y : Vector) (fx fy : R),
    budget y = 0 ->
    Forall2 (fun yi b => fst b <= yi <= snd b) y (bounds_of constraints n_assets) ->
    objective cov_matrix (x res) = Some fx ->
    objective cov_matrix y = Some fy ->
    fx <= fy + delta.

(** ** Coverage filter *)

Module CoverageFilter.

Record CoverageParams : Type := mkCoverageParams {
  min_observations : nat;
  max_missing_pct : Q
}.

Inductive error : Type :=
| InsufficientUniverse.

Definition observed (cell : float) : bool :=
  match cell with Some _ => true | None => false end.

(** The number of non-missing observations of column [j] in the window. *)
Definition count_observed (window : list (list float)) (j : nat) : nat :=
  length (filter observed (map (fun row => nth j row nan) window)).

Definition missing_fraction (window : list (list float)) (j : nat) : Q :=
  (inject_Z (Z.of_nat (length window - count_observed window j))
   / inject_Z (Z.of_nat (length window)))%Q.

(** Modelled from the spec: the coverage filter of the rolling engine
    (portfolio/optimizer.py) is not among the sources; section 4.1 gives
    the rule: eligible iff [count >= min_observations] and
    [missing_fraction <= max_missing_pct]. *)
Definition eligible (p : CoverageParams) (window : list (list float)) (j : nat) : bool :=
  (min_observations p <=? count_observed window j)%nat
  && Qle_bool (missing_fraction window j) (max_missing_pct p).

(** Modelled from the spec: the eligible tickers of a window, in the
    order of the candidates (section 4.1; the function itself is not
    among the sources). *)
Definition eligible_tickers (p : CoverageParams) (window : DataFrame float) : list string :=
  map fst
    (filter (fun tj => eligible p (values window) (snd tj))
            (combine (columns window) (seq 0 (length (columns window))))).

(** Modelled from the spec: the filter fails with [InsufficientUniverse]
    below two eligible tickers or when the window has fewer periods than
    eligible tickers plus one (section 4.1; not among the sources). *)
Definition coverage_filter (p : CoverageParams) (window : DataFrame float)
    : error + list string :=
  let e := eligible_tickers p window in
  if (length e <? 2)%nat || (length (values window) <? length e + 1)%nat
  then inl InsufficientUniverse
  else inr e.

(** The parameters of run_test.py lines 37-40. *)
Definition default_params : CoverageParams := mkCoverageParams 36 (1 # 10).

End CoverageFilter.

(** ** Sample data *)

(** Two assets over three months; the two series differ in the last month
    only. *)
Definition series_a : DataFrame R :=
  mkDataFrame ["AAA"%string; "BBB"%string]
    [[0; 0]; [2 / 100; 0]; [1 / 100; 3 / 100]].

Definition series_b : DataFrame R :=
  mkDataFrame ["AAA"%string; "BBB"%string]
    [[0; 0]; [2 / 100; 0]; [1 / 100; 0]].

(** The same pattern with returns of order one, where the variances are
    far above the accuracy of the solver. *)
Definition series_c : DataFrame R :=
  mkDataFrame ["AAA"%string; "BBB"%string]
    [[0; 0]; [2; 0]; [1; 3]].

Definition series_d : DataFrame R :=
  mkDataFrame ["AAA"%string; "BBB"%string]
    [[0; 0]; [2; 0]; [1; 0]].

(** The months of [series_a] in reverse order. *)
Definition series_a_reversed : DataFrame R :=
  mkDataFrame ["AAA"%string; "BBB"%string]
    [[1 / 100; 3 / 100]; [2 / 100; 0]; [0; 0]].

(** Long-only weights with no cap. *)
Definition unit_box : Constraints := mkConstraints 0 1.

Definition sortino_sample : list R := [- (1 / 100); - (3 / 100); 4 / 100; 8 / 100].

(** A window of 36 months in which the second ticker misses the first
    five. *)
Definition gappy_window : DataFrame float :=
  mkDataFrame ["AAA"%string; "BBB"%string]
    (repeat [Some (1 / 100); None] 5 ++ repeat [Some (1 / 100); Some (2 / 100)] 31).

(** ** The demo: the performance table and the data file *)

(** [Series.prod()]; 1 for an empty series. *)
Definition series_prod (s : list R) : R := fold_right Rmult 1 s.

(** [Series.max()] and [Series.min()] of a series without NaN; NaN when
    it is empty. *)
Fixpoint series_max (s : list R) : float :=
  match s with
  | [] => nan
  | a :: s' =>
      match series_max s' with
      | Some b => Some (Rmax a b)
      | None => Some a
      end
  end.

Fixpoint series_min (s : list R) : float :=
  match s with
  | [] => nan
  | a :: s' =>
      match series_min s' with
      | Some b => Some (Rmin a b)
      | None => Some a
      end
  end.

(** [(returns > 0).mean()]: the share of positive months. *)
Definition positive_share (returns : list R) : float :=
  pd.mean (map (fun r => if Rlt_dec 0 r then 1 else 0) returns).

(** One method's entry of [performance_metrics], lines 202-229, without
    the [skewness] and [kurtosis] entries (pandas' bias-corrected
    estimators). *)
Record Performance : Type := mkPerformance {
  total_return : R;
  annualized_return : float;
  annualized_volatility : float;
  perf_sharpe_ratio : float;
  perf_max_drawdown : float;
  win_rate : float;
  best_month : float;
  worst_month : float;
  perf_sortino_ratio : float
}.

Definition performance (returns : list R) : Performance :=
  let m := calc_metrics returns in
  mkPerformance
    (series_prod (map (fun r => 1 + r) returns) - 1)
    (annual_return m)
    (annual_volatility m)
    (sharpe_ratio m)
    (max_drawdown m)
    (positive_share returns)
    (series_max returns)
    (series_min returns)
    (sortino_ratio m).

(** A row of a raw frame without a missing cell. *)
Definition no_missing (row : list float) : bool :=
  forallb (fun cell => match cell with Some _ => true | None => false end) row.

(** The candidate data files of [main], lines 67-72, in the order they
    are tried. *)
Definition possible_data_paths : list string :=
  ["../data/expanded_market_universe_2000_2024.csv";
   "../data/market_universe_2000_2024.csv";
   "data/expanded_market_universe_2000_2024.csv";
   "data/market_universe_2000_2024.csv"]%string.

(** The loop of lines 74-79 over [os.path.exists]: the path handed to the
    data handler, if any. *)
Fixpoint first_existing (path_exists : string -> bool) (paths : list string)
    : option string :=
  match paths with
  | [] => None
  | path :: paths' =>
      if path_exists path then Some path else first_existing path_exists paths'
  end.

Definition find_data_file (path_exists : string -> bool) : option string :=
  first_existing path_exists possible_data_paths.

(** ** The other demos *)

(** portfolio_optimization_demo.py lines 140-147: the winner alone. *)
Definition winner_only (sample_sharpe lw_sharpe : float) : method :=
  if fgt lw_sharpe sample_sharpe then LedoitWolf else Sample.

(** Python's [l[lo:hi]] and [l[lo:]] for non-negative bounds. *)
Definition slice {A : Type} (lo hi : nat) (l : list A) : list A :=
  firstn (hi - lo) (skipn lo l).

Definition slice_from {A : Type} (lo : nat) (l : list A) : list A :=
  skipn lo l.

(** assignment_default_demo.py lines 54-59: the six groups printed. *)
Definition sector_groups (default_tickers : list string) : list (list string) :=
  [slice 0 5 default_tickers; slice 5 9 default_tickers;
   slice 9 12 default_tickers; slice 12 16 default_tickers;
   slice 16 19 default_tickers; slice_from 19 default_tickers].

(** ** The download scripts

    [scripts/data_download_script.py]; the expanded script repeats
    [get_sp500_tickers], [get_nasdaq_tickers] and [fetch_return_data]
    unchanged.  A database query is given by its outcome: [None] when it
    raises. *)

Module Download.

(** The manual S&P 500 list, lines 52-54. *)
Definition sp500_fallback : list string :=
  ["AAPL"; "MSFT"; "AMZN"; "NVDA"; "GOOG"; "GOOGL"; "META"; "TSLA";
   "BRK.A"; "BRK.B"; "UNH"; "JNJ"; "XOM"; "JPM"; "V"; "PG"; "MA"; "HD";
   "CVX"; "ABBV"; "PFE"; "AVGO"; "KO"; "PEP"; "COST"; "WMT"; "TMO"; "MRK";
   "BAC"; "NFLX"]%string.

(** The manual NASDAQ supplement, lines 82-87. *)
Definition manual_nasdaq : list string :=
  ["AAPL"; "MSFT"; "AMZN"; "NVDA"; "GOOG"; "GOOGL"; "META"; "TSLA";
   "AVGO"; "NFLX"; "ADBE"; "CRM"; "INTC"; "AMD"; "QCOM"; "TXN"; "INTU";
   "ISRG"; "CMCSA"; "AMGN"; "COST"; "CSCO"; "PEP"; "TMUS"; "PYPL"; "SBUX";
   "ADI"; "GILD"; "MDLZ"; "REGN"; "BKNG"; "ADP"; "VRTX"; "FISV"; "CSX";
   "ATVI"; "KLAC"; "MRVL"; "ORLY"; "FTNT"]%string.

(** The NASDAQ list used when the query fails, lines 99-105. *)
Definition nasdaq_fallback : list string :=
  ["AAPL"; "MSFT"; "AMZN"; "NVDA"; "GOOG"; "GOOGL"; "META"; "TSLA";
   "AVGO"; "NFLX"; "ADBE"; "CRM"; "INTC"; "AMD"; "QCOM"; "TXN"; "INTU";
   "ISRG"; "CMCSA"; "AMGN"; "COST"; "CSCO"; "PEP"; "TMUS"; "PYPL"; "SBUX";
   "ADI"; "GILD"; "MDLZ"; "REGN"; "BKNG"; "ADP"; "VRTX"; "FISV"; "CSX";
   "ATVI"; "KLAC"; "MRVL"; "ORLY"; "FTNT"; "CHTR"; "DXCM"; "MRNA"; "NXPI";
   "WDAY"; "TEAM"; "DOCU"; "ZM"; "CRWD"; "OKTA"]%string.

(** [get_top_etfs], lines 107-133. *)
Definition top_etfs : list string :=
  ["SPY"; "VTI"; "VOO"; "IVV"; "VEA"; "IEFA"; "VWO"; "IEMG"; "EEM"; "VTV";
   "VUG"; "IWM"; "IJR"; "VXF"; "VO"; "IJH"; "MDY"; "VB"; "IWF"; "IWD";
   "XLK"; "XLF"; "XLV"; "XLI"; "XLE"; "XLB"; "XLP"; "XLY"; "XLU"; "XLRE";
   "VGT"; "VFH"; "VHT"; "VIS"; "VDE"; "VAW"; "VDC"; "VCR"; "VPU"; "VNQ";
   "AGG"; "BND"; "VGIT"; "VGSH"; "VGLT"; "TLT"; "IEF"; "SHY"; "LQD";
   "HYG"; "VTEB"; "MUB"; "IGSB"; "IGIB"; "IGLB"; "TIP"; "SCHZ"; "GOVT";
   "SCHO"; "SCHR"; "EFA"; "VEU"; "ACWI"; "VXUS"; "IXUS"; "FTEC"; "FEZ";
   "EWJ"; "EWG"; "EWU"; "QQQ"; "DIA"; "GLD"; "SLV"; "USO"; "TNA"; "TQQQ";
   "SQQQ"; "SPXL"; "SPXS"; "VYM"; "NOBL"; "DGRO"; "HDV"; "SCHD"; "DVY";
   "VIG"; "MTUM"; "QUAL"; "USMV"]%string.

(** [list(set(l))]: the distinct elements of [l], in an order Python does
    not specify. *)
Definition SetOrder : Type := list string -> list string.

Definition set_order (list_set : SetOrder) : Prop :=
  forall l, NoDup (list_set l) /\ forall t, In t (list_set l) <-> In t l.

(** [get_sp500_tickers], lines 28-54. *)
Definition get_sp500_tickers (query : option (list string)) : list string :=
  match query with
  | Some tickers => tickers
  | None => sp500_fallback
  end.

(** [get_nasdaq_tickers], lines 56-105. *)
Definition get_nasdaq_tickers (list_set : SetOrder) (query : option (list string))
    : list string :=
  match query with
  | Some tickers =>
      if (length tickers <? 100)%nat
      then list_set (tickers ++ manual_nasdaq)
      else tickers
  | None => nasdaq_fallback
  end.

(** [all_tickers], line 236. *)
Definition all_tickers (list_set : SetOrder)
    (sp500_tickers nasdaq_tickers etf_tickers : list string) : list string :=
  list_set (sp500_tickers ++ nasdaq_tickers ++ etf_tickers).

(** A row of the query [SELECT date, ticker, ret as return]. *)
Record RawRow : Type := mkRawRow {
  raw_date : string;
  raw_ticker : string;
  raw_return : R
}.

(** A row after [pd.to_datetime], the date as a day number. *)
Record Observation : Type := mkObservation {
  date : nat;
  ticker : string;
  ret : R
}.

(** A row of the final data set, with the two placeholder columns. *)
Record Enriched : Type := mkEnriched {
  observation : Observation;
  market_cap : float;
  sector : string
}.

Definition key (o : Observation) : nat * string := (date o, ticker o).

Definition key_eqb (a b : nat * string) : bool :=
  Nat.eqb (fst a) (fst b) && String.eqb (snd a) (snd b).

(** [drop_duplicates(subset=['date', 'ticker'], keep='first')]. *)
Fixpoint drop_duplicates_seen (seen : list (nat * string)) (rows : list Observation)
    : list Observation :=
  match rows with
  | [] => []
  | o :: rows' =>
      if existsb (key_eqb (key o)) seen
      then drop_duplicates_seen seen rows'
      else o :: drop_duplicates_seen (key o :: seen) rows'
  end.

Definition drop_duplicates (rows : list Observation) : list Observation :=
  drop_duplicates_seen [] rows.

(** [data['date'] = pd.to_datetime(data['date'])]: a date that does not
    parse raises. *)
Fixpoint parse_dates (to_datetime : string -> option nat) (rows : list RawRow)
    : option (list Observation) :=
  match rows with
  | [] => Some []
  | r :: rows' =>
      match to_datetime (raw_date r), parse_dates to_datetime rows' with
      | Some d, Some os => Some (mkObservation d (raw_ticker r) (raw_return r) :: os)
      | _, _ => None
      end
  end.

(** [fetch_return_data], lines 135-181: [None] when the query raises,
    when it returns no row, or when the processing raises. *)
Definition fetch_return_data (to_datetime : string -> option nat)
    (query : option (list RawRow)) : option (list Enriched) :=
  match query with
  | None => None
  | Some [] => None
  | Some data =>
      match parse_dates to_datetime data with
      | None => None
      | Some parsed =>
          Some (map (fun o => mkEnriched o nan "Unknown"%string)
                    (drop_duplicates parsed))
      end
  end.

End Download.

(** * Properties *)

(** ** Sums, products and running accumulations *)

Lemma sum_repeat (a : R) (n : nat) : np.sum (repeat a n) = INR n * a.
Proof.
  induction n as [|n IH].
  - simpl; lra.
  - rewrite S_INR. simpl repeat. simpl np.sum. rewrite IH. lra.
Qed.

Lemma prod_app (u v : list R) : Spec.prod (u ++ v) = Spec.prod u * Spec.prod v.
Proof.
  unfold Spec.prod.
  induction u as [|a u IH]; simpl; [lra | rewrite IH; lra].
Qed.

Lemma fold_left_mult (l : list R) (a : R) :
  fold_left Rmult l a = a * Spec.prod l.
Proof.
  revert a; induction l as [|b l IH]; intro a; simpl.
  - unfold Spec.prod; simpl; lra.
  - rewrite IH. unfold Spec.prod; simpl. lra.
Qed.

Lemma fold_left_max (l : list R) (a : R) :
  fold_left Rmax l a = fold_right Rmax a l.
Proof.
  apply fold_symmetric.
  - intros; apply Rmax_assoc.
  - intros; apply Rmax_comm.
Qed.

Lemma map_seq_shift {A : Type} (f : nat -> A) (n : nat) :
  map f (seq 1 n) = map (fun t => f (S t)) (seq 0 n).
Proof.
  now rewrite <- seq_shift, map_map.
Qed.

Lemma firstn_seq (k start len : nat) :
  (k <= len)%nat -> firstn k (seq start len) = seq start k.
Proof.
  revert start len; induction k as [|k IH]; intros start len Hk; [reflexivity|].
  destruct len as [|len]; [lia|].
  cbn [seq firstn]. f_equal. apply IH. lia.
Qed.

(** The [t]-th value of a running accumulation folds the first [t+1]
    inputs. *)
Lemma accumulate_prefix (f : R -> R -> R) (l : list R) (acc : R) :
  pd.accumulate f acc l =
  map (fun t => fold_left f (firstn (S t) l) acc) (seq 0 (length l)).
Proof.
  revert acc; induction l as [|a l IH]; intro acc; [reflexivity|].
  cbn [pd.accumulate length]. rewrite IH.
  cbn [seq map]. f_equal.
  now rewrite map_seq_shift.
Qed.

Lemma cumprod_spec (returns : list R) :
  pd.cumprod (map (fun r => 1 + r) returns) =
  map (Spec.cum returns) (seq 0 (length returns)).
Proof.
  destruct returns as [|r rs]; [reflexivity|].
  cbn [map pd.cumprod length]. rewrite accumulate_prefix, length_map.
  cbn [seq map]. f_equal.
  - unfold Spec.cum, Spec.prod; simpl; lra.
  - rewrite map_seq_shift. apply map_ext; intro t.
    rewrite fold_left_mult, firstn_map. unfold Spec.cum.
    change (firstn (S (S t)) (r :: rs)) with (r :: firstn (S t) rs).
    reflexivity.
Qed.

Lemma expanding_max_spec (c : nat -> R) (n : nat) :
  pd.expanding_max (map c (seq 0 n)) =
  map (fun t => fold_right Rmax (c 0%nat) (map c (seq 1 t))) (seq 0 n).
Proof.
  destruct n as [|n]; [reflexivity|].
  cbn [seq map pd.expanding_max]. rewrite accumulate_prefix, length_map, length_seq.
  f_equal.
  rewrite (map_seq_shift (fun t => fold_right Rmax (c 0%nat) (map c (seq 1 t)))).
  apply map_ext_in; intros t Ht. apply in_seq in Ht.
  rewrite fold_left_max, firstn_map, firstn_seq by lia.
  reflexivity.
Qed.

Lemma sub_map {A : Type} (f g : A -> R) (l : list A) :
  pd.sub (map f l) (map g l) = map (fun t => f t - g t) l.
Proof.
  induction l as [|a l IH]; simpl; [reflexivity | now rewrite IH].
Qed.

Lemma div_map {A : Type} (f g : A -> R) (l : list A) :
  pd.div (map f l) (map g l) = map (fun t => fdiv (Some (f t)) (Some (g t))) l.
Proof.
  induction l as [|a l IH]; simpl; [reflexivity | now rewrite IH].
Qed.

(** The drawdown series of [calc_metrics], date by date. *)
Lemma drawdown_series (returns : list R) :
  let cumulative := pd.cumprod (map (fun r => 1 + r) returns) in
  pd.div (pd.sub cumulative (pd.expanding_max cumulative))
         (pd.expanding_max cumulative)
  = map (drawdown_at returns) (seq 0 (length returns)).
Proof.
  cbv zeta. rewrite cumprod_spec, expanding_max_spec.
  change (fun t => fold_right Rmax (Spec.cum returns 0) (map (Spec.cum returns) (seq 1 t)))
    with (running_max returns).
  rewrite sub_map, div_map. reflexivity.
Qed.

Lemma fold_right_max_ge (a : R) (l : list R) (y : R) :
  In y (a :: l) -> y <= fold_right Rmax a l.
Proof.
  induction l as [|b l IH]; cbn [fold_right].
  - intros [<-|[]]. lra.
  - intros [<-|[<-|Hy]].
    + eapply Rle_trans; [apply IH; now left | apply Rmax_r].
    + apply Rmax_l.
    + eapply Rle_trans; [apply IH; now right | apply Rmax_r].
Qed.

(** The running maximum is one of the cumulative products seen so far. *)
Lemma fold_right_max_in (a : R) (l : list R) : In (fold_right Rmax a l) (a :: l).
Proof.
  induction l as [|b l IH]; [now left|].
  cbn [fold_right]. destruct (Rle_dec b (fold_right Rmax a l)) as [Hle|Hgt].
  - rewrite Rmax_right by exact Hle.
    destruct IH as [IH|IH]; [now left | right; now right].
  - rewrite Rmax_left by lra. right; now left.
Qed.

Lemma running_max_attained (returns : list R) (t : nat) :
  exists s, (s <= t)%nat /\ running_max returns t = Spec.cum returns s.
Proof.
  unfold running_max.
  destruct (fold_right_max_in (Spec.cum returns 0) (map (Spec.cum returns) (seq 1 t)))
    as [H|H].
  - exists 0%nat; split; [lia | now symmetry].
  - apply in_map_iff in H as (s & Hs & Hin). apply in_seq in Hin.
    exists s; split; [lia | now symmetry].
Qed.

Lemma cum_split (returns : list R) (s t : nat) :
  (s <= t)%nat ->
  exists k, Spec.cum returns t = Spec.cum returns s * k.
Proof.
  intro Hst. unfold Spec.cum.
  rewrite <- (firstn_skipn (S s) (firstn (S t) returns)).
  rewrite firstn_firstn. replace (Nat.min (S s) (S t)) with (S s) by lia.
  rewrite map_app, prod_app. eexists; reflexivity.
Qed.

(** A zero divisor in the drawdown series comes with a zero dividend: the
    undefined quotient is [0/0], a NaN, which [Series.min()] skips. *)
Lemma drawdown_zero_divisor (returns : list R) (t : nat) :
  running_max returns t = 0 ->
  Spec.cum returns t - running_max returns t = 0.
Proof.
  intro H0. destruct (running_max_attained returns t) as (s & Hst & Hs).
  destruct (cum_split returns s t Hst) as (k & Hk).
  rewrite H0 in *. rewrite Hk, <- Hs. lra.
Qed.

Lemma min_head_le (a : R) (l : list float) :
  exists m, pd.min (Some a :: l) = Some m /\ m <= a.
Proof.
  cbn [pd.min]. destruct (pd.min l) as [b|].
  - exists (Rmin a b); split; [reflexivity | apply Rmin_l].
  - exists a; split; [reflexivity | lra].
Qed.

(** ** Max drawdown *)

(** The closed form of the running maximum is the largest cumulative
    product up to [t], and the only one. *)
Lemma running_max_is_greatest (returns : list R) (t : nat) :
  Spec.is_running_max returns t (running_max returns t).
Proof.
  split.
  - destruct (running_max_attained returns t) as (s & Hs & E). now exists s.
  - intros s Hs. unfold running_max. apply fold_right_max_ge.
    destruct s as [|s]; [now left|].
    right. apply in_map, in_seq. lia.
Qed.

Lemma running_max_unique (returns : list R) (t : nat) (M : R) :
  Spec.is_running_max returns t M -> M = running_max returns t.
Proof.
  intros [(s & Hs & ->) Hub].
  destruct (running_max_is_greatest returns t) as [(s' & Hs' & E) Hub'].
  apply Rle_antisym.
  - now apply Hub'.
  - rewrite E. now apply Hub.
Qed.

(** An entry of the drawdown series is a number exactly when the running
    maximum is not 0, and is then the quotient of the specification. *)
Lemma drawdown_at_spec (returns : list R) (t : nat) (d : R) :
  drawdown_at returns t = Some d <-> Spec.is_drawdown returns t d.
Proof.
  unfold drawdown_at, fdiv, Spec.is_drawdown. split.
  - destruct (Req_dec_T (running_max returns t) 0) as [|Hnz]; [discriminate|].
    intro H; injection H as <-. exists (running_max returns t).
    split; [apply running_max_is_greatest|]. now split.
  - intros (M & HM & Hnz & ->). apply running_max_unique in HM. subst M.
    destruct (Req_dec_T (running_max returns t) 0); [contradiction | reflexivity].
Qed.

(** [Series.min()] returns one of the numbers of the series, below all the
    others; NaN only when the series holds no number. *)
Lemma min_spec (s : list float) :
  match pd.min s with
  | Some m => In (Some m) s /\ forall v, In (Some v) s -> m <= v
  | None => forall v, ~ In (Some v) s
  end.
Proof.
  induction s as [|y s IH]; cbn [pd.min].
  - intros v [].
  - destruct y as [a|]; destruct (pd.min s) as [b|].
    + destruct IH as [Hin Hlb]. split.
      * destruct (Rle_dec a b) as [Hab|Hab].
        -- rewrite Rmin_left by exact Hab. now left.
        -- rewrite Rmin_right by lra. now right.
      * intros v [E|Hv].
        -- injection E as <-. apply Rmin_l.
        -- eapply Rle_trans; [apply Rmin_r | now apply Hlb].
    + split; [now left|].
      intros v [E|Hv]; [injection E as <-; lra | now apply IH in Hv].
    + destruct IH as [Hin Hlb]. split; [now right|].
      intros v [E|Hv]; [discriminate | now apply Hlb].
    + intros v [E|Hv]; [discriminate | now apply IH in Hv].
Qed.

(** C7: the max drawdown reported by [calc_metrics] is the minimum over t
    of (cum_t - running_max_t) / running_max_t, where cum_t is the
    cumulative product of (1 + return) and running_max_t the largest
    cumulative product up to t: it is the drawdown of one of the dates, no
    date has a lower one, and it is the only number with these two
    properties.  It is NaN only when no date has a drawdown (no date, or a
    running maximum of 0 at every date). *)
Theorem max_drawdown_is_min_relative_drop (returns : list R) :
  match max_drawdown (calc_metrics returns) with
  | Some m =>
      Spec.is_max_drawdown returns m /\
      (forall m', Spec.is_max_drawdown returns m' -> m' = m)
  | None =>
      forall t d, (t < length returns)%nat -> ~ Spec.is_drawdown returns t d
  end.
Proof.
  unfold calc_metrics; cbn [max_drawdown]. rewrite drawdown_series.
  pose proof (min_spec (map (drawdown_at returns) (seq 0 (length returns)))) as H.
  destruct (pd.min (map (drawdown_at returns) (seq 0 (length returns)))) as [m|].
  - destruct H as [Hin Hlb].
    assert (Hm : Spec.is_max_drawdown returns m).
    { split.
      - apply in_map_iff in Hin as (t & Ht & Hseq). apply in_seq in Hseq.
        exists t. split; [lia | now apply drawdown_at_spec].
      - intros t d Ht Hd. apply Hlb, in_map_iff. exists t.
        split; [now apply drawdown_at_spec | apply in_seq; lia]. }
    split; [exact Hm|].
    intros m' [(t' & Ht' & Hd') Hlb'].
    destruct Hm as [(t & Ht & Hd) Hlbm].
    apply Rle_antisym; [now apply (Hlb' t) | now apply (Hlbm t')].
  - intros t d Ht Hd. apply (H d), in_map_iff. exists t.
    split; [now apply drawdown_at_spec | apply in_seq; lia].
Qed.

(** On a rise of 10% followed by a fall of 50% the reported max drawdown
    is -50%. *)
Lemma max_drawdown_of_a_fall :
  max_drawdown (calc_metrics [1 / 10; - (1 / 2)]) = Some (- (1 / 2)).
Proof.
  unfold calc_metrics; cbn [max_drawdown]. rewrite drawdown_series.
  cbn [length seq map pd.min].
  assert (E0 : drawdown_at [1 / 10; - (1 / 2)] 0 = Some 0).
  { unfold drawdown_at, running_max, Spec.cum, Spec.prod, fdiv. cbn.
    destruct (Req_dec_T _ 0) as [E|_]; [lra|]. f_equal; lra. }
  assert (E1 : drawdown_at [1 / 10; - (1 / 2)] 1 = Some (- (1 / 2))).
  { unfold drawdown_at, running_max, Spec.cum, Spec.prod, fdiv. cbn.
    rewrite Rmax_right by lra.
    destruct (Req_dec_T _ 0) as [E|_]; [lra|]. f_equal; lra. }
  rewrite E0, E1. unfold nan. f_equal. apply Rmin_right. lra.
Qed.

(** C9: for a non-empty return series none of whose cumulative products
    of (1 + return) is zero, the max drawdown of [calc_metrics] is a number
    and is at most 0. *)
Theorem max_drawdown_nonpositive (returns : list R) :
  returns <> [] ->
  (forall t, (t < length returns)%nat -> Spec.cum returns t <> 0) ->
  exists m, max_drawdown (calc_metrics returns) = Some m /\ m <= 0.
Proof.
  intros Hne Hnz.
  unfold calc_metrics; cbn [max_drawdown]. rewrite drawdown_series.
  destruct returns as [|r rs]; [contradiction|].
  cbn [length seq map].
  assert (H0 : drawdown_at (r :: rs) 0 = Some 0).
  { unfold drawdown_at, running_max; cbn [seq map fold_right].
    unfold fdiv. destruct (Req_dec_T (Spec.cum (r :: rs) 0) 0) as [E|E].
    - exfalso. apply (Hnz 0%nat); [simpl; lia | exact E].
    - f_equal. field. exact E. }
  rewrite H0. apply min_head_le.
Qed.

Lemma max_drawdown_nonpositive_witness :
  [1 / 10; - (1 / 2)] <> [] /\
  (forall t, (t < length [1 / 10; - (1 / 2)]%R)%nat ->
             Spec.cum [1 / 10; - (1 / 2)] t <> 0) /\
  exists m, max_drawdown (calc_metrics [1 / 10; - (1 / 2)]) = Some m /\ m <= 0.
Proof.
  assert (Hne : [1 / 10; - (1 / 2)] <> []) by discriminate.
  assert (Hnz : forall t, (t < length [1 / 10; - (1 / 2)]%R)%nat ->
                          Spec.cum [1 / 10; - (1 / 2)] t <> 0).
  { intros t Ht. simpl in Ht.
    destruct t as [|[|t]]; [| |lia];
      unfold Spec.cum, Spec.prod; simpl; lra. }
  split; [exact Hne|]. split; [exact Hnz|].
  exact (max_drawdown_nonpositive _ Hne Hnz).
Defined.

(** ** Sharpe ratio *)

Lemma mean_defined (s : list R) :
  s <> [] -> pd.mean s = Some (np.sum s / INR (length s)).
Proof.
  destruct s; [contradiction | reflexivity].
Qed.

Lemma var_defined (s : list R) :
  (2 <= length s)%nat ->
  exists m v, pd.mean s = Some m /\ pd.var s = Some v /\
              v = np.sum (map (fun x => (x - m) * (x - m)) s) / (INR (length s) - 1).
Proof.
  intro Hlen. unfold pd.var.
  destruct s as [|a s]; [simpl in Hlen; lia|].
  rewrite mean_defined by discriminate.
  destruct (Nat.leb_spec (length (a :: s)) 1) as [H|H]; [lia|].
  eexists; eexists; repeat split.
Qed.

Lemma var_undefined (s : list R) : (length s < 2)%nat -> pd.var s = nan.
Proof.
  intro Hlen. unfold pd.var.
  destruct s as [|a s]; [reflexivity|].
  rewrite mean_defined by discriminate.
  destruct (Nat.leb_spec (length (a :: s)) 1) as [H|H]; [reflexivity | lia].
Qed.

Lemma sqrt_12_pos : 0 < sqrt 12.
Proof. apply sqrt_lt_R0; lra. Qed.

(** The annualised volatility, when defined, is not negative. *)
Lemma volatility_nonneg (s : list R) (v : R) :
  Spec.annualized_volatility s = Some v -> 0 <= v.
Proof.
  unfold Spec.annualized_volatility, pd.std, fmul, lift2.
  destruct (pd.var s) as [w|]; [|discriminate].
  cbn [option_map]. intro H; injection H as <-.
  apply Rmult_le_pos; apply sqrt_pos.
Qed.

(** The Sharpe ratio of [calc_metrics] is a number, never NaN. *)
Lemma sharpe_finite (returns : list R) :
  exists s, sharpe_ratio (calc_metrics returns) = Some s.
Proof.
  unfold calc_metrics; cbn [sharpe_ratio].
  destruct (lt_dec (length returns) 2) as [Hlt|Hge].
  - unfold pd.std. rewrite var_undefined by exact Hlt.
    cbn. eexists; reflexivity.
  - destruct (var_defined returns) as (m & v & Hm & Hv & _); [lia|].
    unfold pd.std. rewrite Hm, Hv. cbn.
    destruct (Rlt_dec 0 (sqrt v * sqrt 12)) as [Hpos|Hnpos].
    + destruct (Req_dec_T (sqrt v * sqrt 12) 0); [lra | eexists; reflexivity].
    + eexists; reflexivity.
Qed.

(** Below two observations the volatility is NaN and the Sharpe ratio 0. *)
Lemma sharpe_short_series (returns : list R) :
  (length returns < 2)%nat -> sharpe_ratio (calc_metrics returns) = Some 0.
Proof.
  intro Hlt. unfold calc_metrics; cbn [sharpe_ratio].
  unfold pd.std. rewrite var_undefined by exact Hlt. reflexivity.
Qed.

(** What [calc_metrics] computes: the ratio of annualised return to
    annualised volatility, that is, the Sharpe formula at a zero
    risk-free rate. *)
Lemma calc_sharpe (returns : list R) :
  (2 <= length returns)%nat ->
  sharpe_ratio (calc_metrics returns) = Spec.sharpe 0 returns.
Proof.
  intro Hlen.
  pose proof (volatility_nonneg returns) as Hnn.
  unfold calc_metrics, Spec.sharpe in *; cbn [sharpe_ratio].
  unfold Spec.annualized_volatility, Spec.annualized_return in *.
  destruct (var_defined returns Hlen) as (m & v & Hm & Hv & _).
  unfold pd.std in *. rewrite Hm, Hv in *. cbn in *.
  specialize (Hnn _ eq_refl).
  destruct (Rlt_dec 0 (sqrt v * sqrt 12)) as [Hpos|Hnpos];
    destruct (Req_dec_T (sqrt v * sqrt 12) 0) as [Hz|Hnz]; try lra.
  - f_equal. lra.
  - reflexivity.
Qed.

Lemma spec_sharpe_value (rf : R) (returns : list R) (a v : R) :
  Spec.annualized_return returns = Some a ->
  Spec.annualized_volatility returns = Some v ->
  v <> 0 ->
  Spec.sharpe rf returns = Some ((a - rf) / v).
Proof.
  intros Ha Hv Hnz. unfold Spec.sharpe. rewrite Ha, Hv. cbn.
  destruct (Req_dec_T v 0); [contradiction | reflexivity].
Qed.

(** C4, as the specification words it: the Sharpe ratio subtracts the
    risk-free rate.  The demo configures 4.2% and [calc_metrics] does not
    subtract it. *)
Lemma sharpe_ignores_risk_free_rate :
  sharpe_ratio (calc_metrics [0; 2 / 100]) <> Spec.sharpe (42 / 1000) [0; 2 / 100].
Proof.
  rewrite calc_sharpe by (simpl; lia).
  destruct (var_defined [0; 2 / 100]) as (m & v & Hm & Hv & Hval); [simpl; lia|].
  assert (Em : m = 1 / 100).
  { cbn in Hm. injection Hm as <-. lra. }
  subst m.
  assert (Ev : v = 2 / 10000).
  { rewrite Hval. cbn. lra. }
  assert (Hvol : Spec.annualized_volatility [0; 2 / 100] = Some (sqrt v * sqrt 12)).
  { unfold Spec.annualized_volatility, pd.std. rewrite Hv. reflexivity. }
  assert (Hret : Spec.annualized_return [0; 2 / 100] = Some (1 / 100 * 12)).
  { unfold Spec.annualized_return. rewrite Hm. reflexivity. }
  assert (Hpos : 0 < sqrt v * sqrt 12).
  { apply Rmult_lt_0_compat; [apply sqrt_lt_R0; lra | apply sqrt_12_pos]. }
  rewrite (spec_sharpe_value 0 _ _ _ Hret Hvol) by lra.
  rewrite (spec_sharpe_value (42 / 1000) _ _ _ Hret Hvol) by lra.
  intro H; injection H as H.
  apply (Rmult_eq_compat_r (sqrt v * sqrt 12)) in H.
  unfold Rdiv in H. rewrite !Rmult_assoc, Rinv_l in H by lra. lra.
Qed.

(** C4, amended: for a series of at least two monthly returns, the Sharpe
    ratio of [calc_metrics] is annualised return over annualised volatility
    (mean x 12 over std x sqrt 12, the specified formula at a risk-free
    rate of 0: none is subtracted), and 0 when the volatility is 0. *)
Theorem sharpe_is_return_over_volatility (returns : list R) :
  (2 <= length returns)%nat ->
  annual_return (calc_metrics returns) = fmul (pd.mean returns) (Some 12) /\
  annual_volatility (calc_metrics returns) = fmul (pd.std returns) (Some (sqrt 12)) /\
  sharpe_ratio (calc_metrics returns) = Spec.sharpe 0 returns /\
  (annual_volatility (calc_metrics returns) = Some 0 ->
   sharpe_ratio (calc_metrics returns) = Some 0).
Proof.
  intro Hlen. repeat split.
  - now apply calc_sharpe.
  - intro Hz. unfold calc_metrics in *; cbn [annual_volatility sharpe_ratio] in *.
    rewrite Hz. cbn. destruct (Rlt_dec 0 0); [lra | reflexivity].
Qed.

Lemma sharpe_is_return_over_volatility_witness :
  (2 <= length [0; 2 / 100]%R)%nat /\
  sharpe_ratio (calc_metrics [0; 2 / 100]) = Spec.sharpe 0 [0; 2 / 100].
Proof.
  assert (Hlen : (2 <= length [0; 2 / 100]%R)%nat) by (simpl; lia).
  split; [exact Hlen|].
  exact (proj1 (proj2 (proj2 (sharpe_is_return_over_volatility _ Hlen)))).
Defined.

(** ** Winner determination *)

(** Below two observations the [else] arm is taken: the Sharpe ratio is
    the Python int 0. *)
Lemma sharpe_type_short_series (returns : list R) :
  (length returns < 2)%nat -> sharpe_type (calc_metrics returns) = python_number.
Proof.
  intro Hlt. unfold calc_metrics; cbn [sharpe_type].
  unfold pd.std. rewrite var_undefined by exact Hlt. reflexivity.
Qed.

(** A Sharpe ratio other than 0 comes from the division: it is a NumPy
    scalar. *)
Lemma sharpe_type_nonzero (returns : list R) (s : R) :
  sharpe_ratio (calc_metrics returns) = Some s -> s <> 0 ->
  sharpe_type (calc_metrics returns) = numpy_float64.
Proof.
  unfold calc_metrics; cbn [sharpe_ratio sharpe_type].
  destruct (fgt _ (Some 0)); [reflexivity|].
  intros H Hs. injection H as <-. contradiction.
Qed.

Lemma zero_divisor_python (a b : number) :
  numtype_of a = python_number -> numtype_of b = python_number ->
  value b = Some 0 ->
  improvement_over a b = Raise ZeroDivisionError.
Proof.
  intros Ha Hb Hz. unfold improvement_over, true_divide, subtract.
  cbn [numtype_of value]. rewrite Ha, Hb, Hz. cbn [result_type].
  destruct (Req_dec_T 0 0); [reflexivity | contradiction].
Qed.

Lemma zero_divisor_numpy (a b : number) :
  numtype_of a = numpy_float64 \/ numtype_of b = numpy_float64 ->
  value b = Some 0 ->
  exists i, improvement_over a b = Ok i /\ forall r, i <> fin (Some r).
Proof.
  intros Hty Hz. unfold improvement_over, true_divide, subtract.
  cbn [numtype_of value]. rewrite Hz.
  assert (Hr : result_type (result_type (numtype_of a) (numtype_of b)) (numtype_of b)
               = numpy_float64).
  { destruct Hty as [-> | ->]; destruct (numtype_of a), (numtype_of b); reflexivity. }
  rewrite Hr. unfold np_divide.
  destruct (fsub (value a) (Some 0)) as [u|].
  - destruct (Req_dec_T 0 0) as [_|]; [|contradiction].
    destruct (Rlt_dec 0 u); [|destruct (Rlt_dec u 0)];
      eexists; (split; [reflexivity | intros v; discriminate]).
  - eexists; split; [reflexivity | intros v; discriminate].
Qed.

(** C10: when the Ledoit-Wolf Sharpe ratio is 0 and not greater than the
    sample Sharpe ratio, the demo's winner determination divides by it
    without a guard.  Between the two Python zeros of the [else] arm of
    [calc_metrics] the division raises [ZeroDivisionError]; with a NumPy
    operand it yields an infinity or NaN, never a finite improvement.  The
    analysis of run_test.py, which guards that branch, reports 0. *)
Theorem winner_determination_divides_by_zero (sample lw : Metrics) :
  sharpe_ratio lw = Some 0 ->
  fgt (sharpe_ratio lw) (sharpe_ratio sample) = false ->
  (sharpe_type sample = python_number -> sharpe_type lw = python_number ->
   winner_determination sample lw = Raise ZeroDivisionError) /\
  (sharpe_type sample = numpy_float64 \/ sharpe_type lw = numpy_float64 ->
   exists i, winner_determination sample lw = Ok (Sample, i) /\
             forall r, i <> fin (Some r)) /\
  winner_analysis (sharpe_number sample) (sharpe_number lw) = Ok (Sample, fin (Some 0)).
Proof.
  intros Hz Hgt. unfold winner_determination, winner_analysis.
  cbn [sharpe_number value]. rewrite Hgt. split; [|split].
  - intros Hs Hl.
    now rewrite (zero_divisor_python (sharpe_number sample) (sharpe_number lw) Hs Hl Hz).
  - intro Hty.
    destruct (zero_divisor_numpy (sharpe_number sample) (sharpe_number lw) Hty Hz)
      as (i & Hi & Hnf).
    rewrite Hi. now exists i.
  - rewrite Hz. unfold fne. destruct (Req_dec_T 0 0); [reflexivity | contradiction].
Qed.

(** Reached from data: with a single date both volatilities are NaN, both
    Sharpe ratios are the Python int 0, and the division raises. *)
Lemma winner_determination_divides_by_zero_witness :
  sharpe_ratio (calc_metrics [1 / 100]) = Some 0 /\
  fgt (sharpe_ratio (calc_metrics [1 / 100])) (sharpe_ratio (calc_metrics [2 / 100])) = false /\
  winner_determination (calc_metrics [2 / 100]) (calc_metrics [1 / 100])
    = Raise ZeroDivisionError /\
  winner_analysis (sharpe_number (calc_metrics [2 / 100]))
                  (sharpe_number (calc_metrics [1 / 100])) = Ok (Sample, fin (Some 0)).
Proof.
  assert (H1 : sharpe_ratio (calc_metrics [1 / 100]) = Some 0)
    by (apply sharpe_short_series; simpl; lia).
  assert (H2 : fgt (sharpe_ratio (calc_metrics [1 / 100]))
                   (sharpe_ratio (calc_metrics [2 / 100])) = false).
  { rewrite !sharpe_short_series by (simpl; lia).
    unfold fgt. destruct (Rlt_dec 0 0); [lra | reflexivity]. }
  destruct (winner_determination_divides_by_zero _ _ H1 H2) as (Hpy & _ & Hguard).
  split; [exact H1|]. split; [exact H2|]. split; [|exact Hguard].
  apply Hpy; apply sharpe_type_short_series; simpl; lia.
Defined.

(** ** Sortino ratio *)

Lemma spec_sortino_value (rf : R) (returns : list R) (a v : R) :
  Spec.annualized_return returns = Some a ->
  Spec.downside_deviation returns = Some v ->
  v <> 0 ->
  Spec.sortino rf returns = Some ((a - rf) / v).
Proof.
  intros Ha Hv Hnz. unfold Spec.sortino. rewrite Ha, Hv. cbn.
  destruct (Req_dec_T v 0); [contradiction | reflexivity].
Qed.

Lemma downside_sortino_sample :
  Spec.downside sortino_sample = [- (1 / 100); - (3 / 100)].
Proof.
  unfold Spec.downside, sortino_sample. cbn [filter].
  repeat (destruct (Rlt_dec _ 0); try lra).
  reflexivity.
Qed.

(** Two square roots in a fixed ratio have their squares in the squared
    ratio. *)
Lemma sqrt_ratio (p q c d : R) :
  0 <= p -> 0 <= q -> c * sqrt p = d * sqrt q -> c * c * p = d * d * q.
Proof.
  intros Hp Hq H.
  replace (c * c * p) with ((c * sqrt p) * (c * sqrt p))
    by (rewrite <- (sqrt_sqrt p Hp) at 3; ring).
  replace (d * d * q) with ((d * sqrt q) * (d * sqrt q))
    by (rewrite <- (sqrt_sqrt q Hq) at 3; ring).
  now rewrite H.
Qed.

(** C5: the entry reported as [sortino_ratio] is 1.1 times the Sharpe
    ratio whatever the returns; on the sample series it differs from the
    ratio built on the deviation of the negative-return periods, at a
    risk-free rate of 0 and at the configured 4.2%. *)
Theorem sortino_is_scaled_sharpe :
  (forall returns,
     sortino_ratio (calc_metrics returns)
     = fmul (sharpe_ratio (calc_metrics returns)) (Some (11 / 10))) /\
  sortino_ratio (calc_metrics sortino_sample) <> Spec.sortino 0 sortino_sample /\
  sortino_ratio (calc_metrics sortino_sample) <> Spec.sortino (42 / 1000) sortino_sample.
Proof.
  split; [reflexivity|].
  unfold sortino_ratio. rewrite calc_sharpe by (simpl; lia).
  destruct (var_defined sortino_sample) as (m & v & Hm & Hv & Hval); [simpl; lia|].
  assert (Em : m = 2 / 100) by (cbn in Hm; injection Hm as <-; lra).
  subst m.
  assert (Ev : v = 74 / 30000) by (rewrite Hval; cbn; lra).
  destruct (var_defined (Spec.downside sortino_sample)) as (dm & dv & Hdm & Hdv & Hdval);
    [rewrite downside_sortino_sample; simpl; lia|].
  rewrite downside_sortino_sample in Hdm, Hdv, Hdval.
  assert (Edm : dm = - (2 / 100)) by (cbn in Hdm; injection Hdm as <-; lra).
  subst dm.
  assert (Edv : dv = 2 / 10000) by (rewrite Hdval; cbn; lra).
  assert (Hret : Spec.annualized_return sortino_sample = Some (2 / 100 * 12)).
  { unfold Spec.annualized_return. rewrite Hm. reflexivity. }
  assert (Hvol : Spec.annualized_volatility sortino_sample = Some (sqrt v * sqrt 12)).
  { unfold Spec.annualized_volatility, pd.std. rewrite Hv. reflexivity. }
  assert (Hdown : Spec.downside_deviation sortino_sample = Some (sqrt dv * sqrt 12)).
  { unfold Spec.downside_deviation, pd.std.
    rewrite downside_sortino_sample, Hdv. reflexivity. }
  pose proof sqrt_12_pos as Hk.
  assert (Hsv : 0 < sqrt v) by (apply sqrt_lt_R0; lra).
  assert (Hsd : 0 < sqrt dv) by (apply sqrt_lt_R0; lra).
  assert (Hpv : 0 < sqrt v * sqrt 12) by (apply Rmult_lt_0_compat; assumption).
  assert (Hpd : 0 < sqrt dv * sqrt 12) by (apply Rmult_lt_0_compat; assumption).
  rewrite (spec_sharpe_value 0 _ _ _ Hret Hvol) by lra.
  rewrite !(spec_sortino_value _ _ _ _ Hret Hdown) by lra.
  cbn [fmul lift2].
  assert (Hcross : forall rf,
    (2 / 100 * 12 - 0) / (sqrt v * sqrt 12) * (11 / 10)
      = (2 / 100 * 12 - rf) / (sqrt dv * sqrt 12) ->
    (2 / 100 * 12 * (11 / 10)) * sqrt dv = (2 / 100 * 12 - rf) * sqrt v).
  { intros rf H.
    apply (Rmult_eq_compat_r (sqrt v * sqrt dv * sqrt 12)) in H.
    replace ((2 / 100 * 12 - 0) / (sqrt v * sqrt 12) * (11 / 10)
             * (sqrt v * sqrt dv * sqrt 12))
      with (2 / 100 * 12 * (11 / 10) * sqrt dv) in H by (field; lra).
    replace ((2 / 100 * 12 - rf) / (sqrt dv * sqrt 12)
             * (sqrt v * sqrt dv * sqrt 12))
      with ((2 / 100 * 12 - rf) * sqrt v) in H by (field; lra).
    exact H. }
  split; intro H; injection H as H; apply Hcross in H;
    apply sqrt_ratio in H; lra.
Qed.

(** ** The optimisation step *)

Lemma Rabs_le_bounds (a b : R) : Rabs a <= b -> - b <= a <= b.
Proof.
  unfold Rabs. destruct (Rcase_abs a); lra.
Qed.

Lemma initial_weights_sum (n : nat) :
  (0 < n)%nat -> np.sum (initial_weights n) = 1.
Proof.
  intro Hn. unfold initial_weights. rewrite sum_repeat.
  field. apply not_0_INR; lia.
Qed.

Lemma Forall_repeat_iff {A : Type} (P : A -> Prop) (a : A) (n : nat) :
  (0 < n)%nat -> (Forall P (repeat a n) <-> P a).
Proof.
  intro Hn; split.
  - destruct n as [|n]; [lia|]. cbn [repeat]. intro H; now inversion H.
  - intro H. apply Forall_forall. intros y Hy.
    apply repeat_spec in Hy. now subst.
Qed.

Lemma Forall2_repeat_r {A B : Type} (P : A -> B -> Prop) (l : list A) (b : B) (n : nat) :
  Forall2 P l (repeat b n) -> length l = n /\ Forall (fun a => P a b) l.
Proof.
  revert l; induction n as [|n IH]; intros l H; cbn [repeat] in H.
  - inversion H; subst. split; [reflexivity | constructor].
  - inversion H as [|a b' l' ? Hab Hrest]; subst.
    destruct (IH _ Hrest) as [Hlen Hall].
    split; [simpl; now rewrite Hlen | now constructor].
Qed.

Lemma sum_le_box (hi : R) (l : list R) :
  Forall (fun a => a <= hi) l -> np.sum l <= INR (length l) * hi.
Proof.
  induction 1 as [|a l Ha _ IH].
  - simpl; lra.
  - change (length (a :: l)) with (S (length l)). rewrite S_INR.
    cbn [np.sum fold_right]. fold (np.sum l). lra.
Qed.

Lemma solve_optimization_cases (minimize : Minimizer) (c : Constraints)
    (n : nat) (cov : option Matrix) (w : Vector) :
  solve_optimization minimize c n cov = Ok w ->
  (0 < n)%nat /\
  w = if success (minimize_result minimize c n cov)
      then x (minimize_result minimize c n cov) else initial_weights n.
Proof.
  unfold solve_optimization. destruct n as [|n]; [discriminate|].
  intro H; injection H as <-. split; [lia | reflexivity].
Qed.

Section Solver.

Variable minimize : Minimizer.
Hypothesis contract : slsqp_contract minimize.

(** A converged run respects the budget and the box. *)
Lemma converged_run (c : Constraints) (n : nat) (cov : option Matrix) :
  success (minimize_result minimize c n cov) = true ->
  length (x (minimize_result minimize c n cov)) = n /\
  Spec.weight_invariant c (x (minimize_result minimize c n cov)).
Proof.
  intros Hs. unfold minimize_result in *.
  destruct (contract _ _ _ _ Hs) as [Hb Hbox].
  apply Forall2_repeat_r in Hbox as [Hlen Hall].
  split; [exact Hlen|]. split; assumption.
Qed.

(** No point of a box with [n * max_weight < 1] meets the budget: a solver
    that keeps its contract reports failure there. *)
Lemma infeasible_box_fails (c : Constraints) (n : nat) (cov : option Matrix) :
  INR n * max_weight c < 1 - tolerance ->
  success (minimize_result minimize c n cov) = false.
Proof.
  intros Hinf.
  destruct (success (minimize_result minimize c n cov)) eqn:Hs; [|reflexivity].
  exfalso.
  destruct (converged_run c n cov Hs) as [Hlen [Hsum Hbox]].
  assert (Hle : np.sum (x (minimize_result minimize c n cov)) <= INR n * max_weight c).
  { assert (Hup : Forall (fun a => a <= max_weight c)
                           (x (minimize_result minimize c n cov)))
      by (eapply Forall_impl; [|exact Hbox]; cbn; intros a Ha; lra).
    apply sum_le_box in Hup. now rewrite Hlen in Hup. }
  apply Rabs_le_bounds in Hsum. lra.
Qed.

(** Three assets under the demo's box [0, 0.25]: whatever the covariance
    matrix, the step returns the equal weights. *)
Lemma three_assets_fall_back (cov : option Matrix) :
  solve_optimization minimize demo_constraints 3 cov = Ok [1 / 3; 1 / 3; 1 / 3].
Proof.
  unfold solve_optimization. rewrite infeasible_box_fails.
  - unfold initial_weights. cbn [repeat]. do 4 f_equal; cbn; lra.
  - unfold demo_constraints, tolerance; cbn. lra.
Qed.

End Solver.

Lemma two_asset_exact_contract : slsqp_contract two_asset_exact.
Proof.
  intros f x0 bounds g. unfold two_asset_exact.
  destruct bounds as [|[l1 h1] [|[l2 h2] [|]]]; try discriminate.
  destruct (f [1; 0]) as [s11|]; [|discriminate].
  destruct (f [0; 1]) as [s22|]; [|discriminate].
  destruct (f [1; 1]) as [s|]; [|discriminate].
  cbv zeta.
  set (lo := Rmax l1 (1 - h2)). set (hi := Rmin h1 (1 - l2)).
  set (a := if Rlt_dec 0 _ then _ else _).
  destruct (Rle_dec lo hi) as [Hlh|]; [|discriminate].
  destruct (Rle_dec (Rabs (g [a; 1 - a])) tolerance) as [Hg|]; [|discriminate].
  intros _. cbn [x]. split; [exact Hg|].
  assert (Ha : lo <= a <= hi).
  { subst a. destruct (Rlt_dec 0 _).
    - unfold clamp. split; [apply Rmax_l|].
      apply Rmax_lub; [exact Hlh | apply Rmin_l].
    - destruct (Rle_dec s22 _); lra. }
  pose proof (Rmax_l l1 (1 - h2)). pose proof (Rmax_r l1 (1 - h2)).
  pose proof (Rmin_l h1 (1 - l2)). pose proof (Rmin_r h1 (1 - l2)).
  fold lo in H, H0. fold hi in H1, H2.
  apply Forall2_cons; [cbn [fst snd]; lra|].
  apply Forall2_cons; [cbn [fst snd]; lra | apply Forall2_nil].
Qed.

Lemma non_converging_contract : slsqp_contract non_converging.
Proof.
  intros f x0 bounds g. discriminate.
Qed.

(** The exact solver on a 2 x 2 covariance matrix whose unconstrained
    minimiser lies in the box. *)
Lemma two_asset_exact_interior (c : Constraints) (a b d w1 : R) :
  0 < a - 2 * b + d ->
  w1 = (d - b) / (a - 2 * b + d) ->
  min_weight c <= w1 <= max_weight c ->
  min_weight c <= 1 - w1 <= max_weight c ->
  minimize_result two_asset_exact c 2 (Some [[a; b]; [b; d]])
  = mkOptimizeResult [w1; 1 - w1] true.
Proof.
  intros Hd Hw [Hlo Hhi] [Hlo' Hhi'].
  unfold minimize_result, two_asset_exact, bounds_of. cbn [repeat].
  assert (E1 : objective (Some [[a; b]; [b; d]]) [1; 0] = Some a)
    by (cbn; f_equal; ring).
  assert (E2 : objective (Some [[a; b]; [b; d]]) [0; 1] = Some d)
    by (cbn; f_equal; ring).
  assert (E3 : objective (Some [[a; b]; [b; d]]) [1; 1] = Some (a + 2 * b + d))
    by (cbn; f_equal; ring).
  rewrite E1, E2, E3. cbv zeta.
  replace ((a + 2 * b + d - a - d) / 2) with b by field.
  set (lo := Rmax (min_weight c) (1 - max_weight c)).
  set (hi := Rmin (max_weight c) (1 - min_weight c)).
  assert (Hlow : lo <= w1) by (apply Rmax_lub; lra).
  assert (Hhiw : w1 <= hi) by (apply Rmin_glb; lra).
  destruct (Rlt_dec 0 (a - 2 * b + d)) as [_|]; [|contradiction].
  rewrite <- Hw.
  replace (clamp lo hi w1) with w1
    by (unfold clamp; rewrite (Rmin_right hi w1), Rmax_right by lra; reflexivity).
  destruct (Rle_dec lo hi) as [_|]; [|lra].
  destruct (Rle_dec (Rabs (budget [w1; 1 - w1])) tolerance) as [_|Hn]; [reflexivity|].
  exfalso; apply Hn. unfold budget, tolerance; cbn.
  replace (w1 + (1 - w1 + 0) - 1) with 0 by ring. rewrite Rabs_R0. lra.
Qed.

(** C3: over N >= 1 assets, when the solver reports failure
    (non-convergence or infeasibility) the optimisation step returns the
    equal-weight vector, 1/N for each of the N assets; it returns and does
    not raise. *)
Theorem fallback_is_equal_weight (minimize : Minimizer) (c : Constraints)
    (n : nat) (cov : option Matrix) :
  (0 < n)%nat ->
  success (minimize_result minimize c n cov) = false ->
  solve_optimization minimize c n cov = Ok (repeat (1 / INR n) n).
Proof.
  intros Hn Hfail. unfold solve_optimization.
  destruct n as [|n]; [lia|]. now rewrite Hfail.
Qed.

Lemma fallback_is_equal_weight_witness :
  (0 < 4)%nat /\
  success (minimize_result non_converging demo_constraints 4 (Some (identity_matrix 4))) = false /\
  solve_optimization non_converging demo_constraints 4 (Some (identity_matrix 4))
  = Ok (repeat (1 / INR 4) 4).
Proof.
  split; [lia|]. split; [reflexivity|].
  apply fallback_is_equal_weight; [lia | reflexivity].
Defined.

(** C2, as the specification words it, fails on the fallback path: three
    assets under the demo's box [0, 0.25] cannot sum to 1, every solver
    that keeps its contract fails, and the equal weights 1/3 returned
    exceed the upper bound. *)
Lemma fallback_leaves_the_box :
  (forall minimize cov, slsqp_contract minimize ->
     solve_optimization minimize demo_constraints 3 cov = Ok [1 / 3; 1 / 3; 1 / 3]) /\
  solve_optimization non_converging demo_constraints 3 (Some (identity_matrix 3))
    = Ok [1 / 3; 1 / 3; 1 / 3] /\
  ~ Spec.weight_invariant demo_constraints [1 / 3; 1 / 3; 1 / 3].
Proof.
  split; [|split].
  - intros minimize cov Hc. now apply three_assets_fall_back.
  - apply three_assets_fall_back, non_converging_contract.
  - intros [_ Hbox]. inversion Hbox as [|? ? H _]; subst.
    unfold demo_constraints in H; cbn in H. lra.
Qed.

(** C2, amended: the weight vector returned by the optimisation step sums
    to 1 within 1e-6; each component lies in [min_weight, max_weight] when
    the solver converged, and on the fallback path exactly when
    min_weight <= 1/N <= max_weight. *)
Theorem weights_budget_and_box (minimize : Minimizer) (c : Constraints)
    (n : nat) (cov : option Matrix) (w : Vector) :
  slsqp_contract minimize ->
  solve_optimization minimize c n cov = Ok w ->
  length w = n /\
  Rabs (np.sum w - 1) <= tolerance /\
  (success (minimize_result minimize c n cov) = true ->
   Forall (fun wi => min_weight c <= wi <= max_weight c) w) /\
  (success (minimize_result minimize c n cov) = false ->
   (Forall (fun wi => min_weight c <= wi <= max_weight c) w <->
    min_weight c <= 1 / INR n <= max_weight c)).
Proof.
  intros Hc Hw. apply solve_optimization_cases in Hw as [Hn Hw].
  destruct (success (minimize_result minimize c n cov)) eqn:Hs; subst w.
  - destruct (converged_run minimize Hc c n cov Hs) as [Hlen [Hsum Hbox]].
    split; [exact Hlen|]. split; [exact Hsum|].
    split; [intros _; exact Hbox | intro Hf; discriminate Hf].
  - unfold initial_weights. split; [apply repeat_length|].
    split.
    + fold (initial_weights n). rewrite initial_weights_sum by exact Hn.
      replace (1 - 1) with 0 by ring. rewrite Rabs_R0. unfold tolerance; lra.
    + split; [discriminate|]. intros _.
      exact (Forall_repeat_iff (fun wi => min_weight c <= wi <= max_weight c) _ _ Hn).
Qed.

Lemma weights_budget_and_box_witness :
  slsqp_contract two_asset_exact /\
  solve_optimization two_asset_exact (mkConstraints 0 1) 2 (Some [[1; 0]; [0; 3]])
    = Ok [3 / 4; 1 - 3 / 4] /\
  Rabs (np.sum [3 / 4; 1 - 3 / 4] - 1) <= tolerance.
Proof.
  assert (Hrun : solve_optimization two_asset_exact (mkConstraints 0 1) 2
                   (Some [[1; 0]; [0; 3]]) = Ok [3 / 4; 1 - 3 / 4]).
  { unfold solve_optimization.
    rewrite (two_asset_exact_interior (mkConstraints 0 1) 1 0 3 (3 / 4));
      cbn [min_weight max_weight success x]; try lra; reflexivity. }
  split; [exact two_asset_exact_contract|]. split; [exact Hrun|].
  exact (proj1 (proj2 (weights_budget_and_box two_asset_exact (mkConstraints 0 1) 2
                         (Some [[1; 0]; [0; 3]]) _ two_asset_exact_contract Hrun))).
Defined.

(** ** Sample covariance *)

Lemma dot_map {A : Type} (f g : A -> R) (l : list A) :
  np.dot (map f l) (map g l) = np.sum (map (fun a => f a * g a) l).
Proof.
  induction l as [|a l IH]; [reflexivity|].
  cbn [map np.dot np.sum fold_right]. now rewrite IH.
Qed.

Lemma center_column (m : Matrix) (j : nat) :
  np.center (np.column m j) = map (fun row => nth j row 0 - Spec.column_mean m j) m.
Proof.
  unfold np.center, np.average, np.column, Spec.column_mean.
  now rewrite map_map, length_map.
Qed.

Lemma nth_map_seq {A : Type} (f : nat -> A) (n i : nat) (d : A) :
  nth i (map f (seq 0 n)) d = if (i <? n)%nat then f i else d.
Proof.
  destruct (Nat.ltb_spec i n) as [Hlt|Hge].
  - rewrite (nth_indep _ d (f 0%nat)) by (now rewrite length_map, length_seq).
    rewrite map_nth, seq_nth by exact Hlt. reflexivity.
  - apply nth_overflow. now rewrite length_map, length_seq.
Qed.

Lemma covariance_entry_comm (m : Matrix) (i j : nat) :
  Spec.covariance_entry m i j = Spec.covariance_entry m j i.
Proof.
  unfold Spec.covariance_entry. f_equal. f_equal.
  apply map_ext; intro row. apply Rmult_comm.
Qed.

Lemma entry_sample_covariance (n : nat) (m : Matrix) (i j : nat) :
  Spec.entry (Spec.sample_covariance n m) i j =
  if ((i <? n) && (j <? n))%nat then Spec.covariance_entry m i j else 0.
Proof.
  unfold Spec.entry, Spec.sample_covariance.
  rewrite nth_map_seq. destruct (i <? n)%nat.
  - rewrite nth_map_seq. reflexivity.
  - now destruct j.
Qed.

Lemma sample_covariance_symmetric (n : nat) (m : Matrix) :
  Spec.symmetric (Spec.sample_covariance n m).
Proof.
  intros i j. rewrite !entry_sample_covariance.
  rewrite (andb_comm (j <? n)%nat). rewrite covariance_entry_comm. reflexivity.
Qed.

(** [np.cov] on the transposed return array, entry by entry. *)
Lemma cov_transpose (n : nat) (m : Matrix) :
  (2 <= length m)%nat ->
  np.cov (np.transpose n m) = Some (Spec.sample_covariance n m).
Proof.
  intro HT. unfold np.transpose, Spec.sample_covariance.
  destruct n as [|n]; [reflexivity|].
  unfold np.cov. remember (seq 0 (S n)) as idx eqn:Hidx.
  destruct (map (np.column m) idx) as [|x0 X'] eqn:HX.
  - subst idx; discriminate.
  - assert (Hx0 : x0 = np.column m 0) by (subst idx; cbn in HX; congruence).
    assert (Hlen : length x0 = length m)
      by (subst x0; unfold np.column; apply length_map).
    rewrite Hlen. destruct (Nat.ltb_spec (length m) 2) as [Hlt|_]; [lia|].
    rewrite <- HX, map_map. apply f_equal.
    apply map_ext; intro i.
    rewrite map_map. apply map_ext; intro j.
    rewrite !center_column, dot_map. reflexivity.
Qed.

(** C8: for a T x N return matrix with T >= 2, the sample estimator of
    the demo returns the unbiased sample covariance matrix, the
    cross-products of the deviations from the column means divided by
    T - 1, and that matrix is symmetric. *)
Theorem sample_cov_is_unbiased_covariance (returns_data : DataFrame R) :
  (2 <= length (values returns_data))%nat ->
  exists c : Matrix,
    sample_cov returns_data = Some c /\
    length c = length (columns returns_data) /\
    (forall i j, (i < length (columns returns_data))%nat ->
                 (j < length (columns returns_data))%nat ->
       Spec.entry c i j = Spec.covariance_entry (values returns_data) i j) /\
    Spec.symmetric c.
Proof.
  intro HT.
  exists (Spec.sample_covariance (length (columns returns_data)) (values returns_data)).
  split; [now apply cov_transpose|].
  split; [unfold Spec.sample_covariance; now rewrite length_map, length_seq|].
  split; [|apply sample_covariance_symmetric].
  intros i j Hi Hj. rewrite entry_sample_covariance.
  apply Nat.ltb_lt in Hi, Hj. now rewrite Hi, Hj.
Qed.

Lemma sample_cov_is_unbiased_covariance_witness :
  (2 <= length (values series_a))%nat /\
  exists c : Matrix,
    sample_cov series_a = Some c /\
    length c = length (columns series_a) /\
    (forall i j, (i < length (columns series_a))%nat ->
                 (j < length (columns series_a))%nat ->
       Spec.entry c i j = Spec.covariance_entry (values series_a) i j) /\
    Spec.symmetric c.
Proof.
  assert (H : (2 <= length (values series_a))%nat) by (simpl; lia).
  split; [exact H|].
  exact (sample_cov_is_unbiased_covariance series_a H).
Defined.

(** ** Look-ahead *)

Lemma fit_cases (estimator : Shrinkage) (n : nat) (X : Matrix) :
  ((X = [] \/ n = 0%nat) /\ fit estimator n X = Raise ValueError) \/
  ((X <> [] /\ (0 < n)%nat) /\ fit estimator n X = Ok (estimator X)).
Proof.
  unfold fit. destruct X as [|row X].
  - left. split; [now left | reflexivity].
  - destruct n as [|n].
    + left. split; [now right | reflexivity].
    + right. split; [split; [discriminate | lia] | reflexivity].
Qed.

Lemma fit_ok (estimator : Shrinkage) (n : nat) (X : Matrix) :
  X <> [] -> (0 < n)%nat -> fit estimator n X = Ok (estimator X).
Proof.
  intros HX Hn. destruct (fit_cases estimator n X) as [[[E|E] _]|[_ H]].
  - contradiction.
  - lia.
  - exact H.
Qed.

Lemma optimize_cases (minimize : Minimizer) (ledoit_wolf : Shrinkage)
    (returns_data : DataFrame R) (c : Constraints) (r : DualResult) :
  optimize_portfolio_dual_methods minimize ledoit_wolf returns_data c = Ok r ->
  values returns_data <> [] /\
  solve_optimization minimize c (length (columns returns_data)) (sample_cov returns_data)
    = Ok (sample_weights r) /\
  solve_optimization minimize c (length (columns returns_data))
      (covariance_ (ledoit_wolf (values returns_data)))
    = Ok (lw_weights r) /\
  shrinkage_param r = shrinkage_ (ledoit_wolf (values returns_data)).
Proof.
  unfold optimize_portfolio_dual_methods.
  destruct (fit_cases ledoit_wolf (length (columns returns_data)) (values returns_data))
    as [[_ E]|[[HX _] E]]; rewrite E; [discriminate|].
  destruct (solve_optimization minimize c _ (sample_cov returns_data)) as [sw|];
    [|discriminate].
  destruct (solve_optimization minimize c _ (covariance_ _)) as [lw|];
    [|discriminate].
  intro H; injection H as <-. repeat split; try reflexivity. exact HX.
Qed.

Lemma optimize_ok (minimize : Minimizer) (ledoit_wolf : Shrinkage)
    (returns_data : DataFrame R) (c : Constraints) (sw lw : Vector) :
  values returns_data <> [] ->
  solve_optimization minimize c (length (columns returns_data)) (sample_cov returns_data)
    = Ok sw ->
  solve_optimization minimize c (length (columns returns_data))
      (covariance_ (ledoit_wolf (values returns_data)))
    = Ok lw ->
  optimize_portfolio_dual_methods minimize ledoit_wolf returns_data c
  = Ok (mkDualResult sw lw (shrinkage_ (ledoit_wolf (values returns_data)))).
Proof.
  intros HX Hs Hl. unfold optimize_portfolio_dual_methods.
  rewrite fit_ok; [|exact HX|exact (proj1 (solve_optimization_cases _ _ _ _ _ Hs))].
  now rewrite Hs, Hl.
Qed.

Lemma sample_cov_series_a :
  sample_cov series_a = Some [[1 / 10000; 0]; [0; 3 / 10000]].
Proof.
  unfold sample_cov. rewrite cov_transpose by (simpl; lia).
  unfold Spec.sample_covariance, Spec.covariance_entry, Spec.column_mean.
  cbn. repeat (f_equal; try lra).
Qed.

Lemma sample_cov_series_b :
  sample_cov series_b = Some [[1 / 10000; 0]; [0; 0]].
Proof.
  unfold sample_cov. rewrite cov_transpose by (simpl; lia).
  unfold Spec.sample_covariance, Spec.covariance_entry, Spec.column_mean.
  cbn. repeat (f_equal; try lra).
Qed.

Lemma sample_cov_series_c :
  sample_cov series_c = Some [[1; 0]; [0; 3]].
Proof.
  unfold sample_cov. rewrite cov_transpose by (simpl; lia).
  unfold Spec.sample_covariance, Spec.covariance_entry, Spec.column_mean.
  cbn. repeat (f_equal; try lra).
Qed.

Lemma sample_cov_series_d :
  sample_cov series_d = Some [[1; 0]; [0; 0]].
Proof.
  unfold sample_cov. rewrite cov_transpose by (simpl; lia).
  unfold Spec.sample_covariance, Spec.covariance_entry, Spec.column_mean.
  cbn. repeat (f_equal; try lra).
Qed.

Lemma solve_two_asset (c : Constraints) (a b d w1 : R) :
  0 < a - 2 * b + d ->
  w1 = (d - b) / (a - 2 * b + d) ->
  min_weight c <= w1 <= max_weight c ->
  min_weight c <= 1 - w1 <= max_weight c ->
  solve_optimization two_asset_exact c 2 (Some [[a; b]; [b; d]]) = Ok [w1; 1 - w1].
Proof.
  intros Hd Hw Hb1 Hb2. unfold solve_optimization.
  now rewrite (two_asset_exact_interior c a b d w1 Hd Hw Hb1 Hb2).
Qed.

Lemma solve_identity :
  solve_optimization two_asset_exact unit_box 2 (Some [[1; 0]; [0; 1]])
  = Ok [1 / 2; 1 - 1 / 2].
Proof.
  apply solve_two_asset; cbn [unit_box min_weight max_weight]; lra.
Qed.

Lemma optimize_series_a :
  optimize_portfolio_dual_methods two_asset_exact identity_shrinkage series_a unit_box
  = Ok (mkDualResult [3 / 4; 1 - 3 / 4] [1 / 2; 1 - 1 / 2] (Some 1)).
Proof.
  apply (optimize_ok two_asset_exact identity_shrinkage series_a unit_box).
  - discriminate.
  - rewrite sample_cov_series_a.
    apply solve_two_asset; cbn [unit_box min_weight max_weight]; lra.
  - exact solve_identity.
Qed.

Lemma optimize_series_b :
  optimize_portfolio_dual_methods two_asset_exact identity_shrinkage series_b unit_box
  = Ok (mkDualResult [0; 1 - 0] [1 / 2; 1 - 1 / 2] (Some 1)).
Proof.
  apply (optimize_ok two_asset_exact identity_shrinkage series_b unit_box).
  - discriminate.
  - rewrite sample_cov_series_b.
    apply solve_two_asset; cbn [unit_box min_weight max_weight]; lra.
  - exact solve_identity.
Qed.

Lemma optimize_series_c :
  optimize_portfolio_dual_methods two_asset_exact identity_shrinkage series_c unit_box
  = Ok (mkDualResult [3 / 4; 1 - 3 / 4] [1 / 2; 1 - 1 / 2] (Some 1)).
Proof.
  apply (optimize_ok two_asset_exact identity_shrinkage series_c unit_box).
  - discriminate.
  - rewrite sample_cov_series_c.
    apply solve_two_asset; cbn [unit_box min_weight max_weight]; lra.
  - exact solve_identity.
Qed.

(** The estimate reads the dates as an unordered sample: reordering them
    leaves the sample covariance, hence the sample weights, unchanged. *)
Lemma sum_permutation (u v : Vector) : Permutation u v -> np.sum u = np.sum v.
Proof.
  induction 1 as [|a u v _ IH|a b u|u v w _ IH1 _ IH2]; cbn [np.sum fold_right] in *.
  - reflexivity.
  - fold (np.sum u) (np.sum v). lra.
  - lra.
  - congruence.
Qed.

Lemma covariance_entry_permutation (m m' : Matrix) (i j : nat) :
  Permutation m m' ->
  Spec.covariance_entry m i j = Spec.covariance_entry m' i j.
Proof.
  intro Hp.
  assert (Hmean : forall k, Spec.column_mean m k = Spec.column_mean m' k).
  { intro k. unfold Spec.column_mean.
    rewrite (Permutation_length Hp).
    now rewrite (sum_permutation _ _ (Permutation_map (fun row => nth k row 0) Hp)). }
  unfold Spec.covariance_entry.
  rewrite (Permutation_length Hp), !Hmean.
  now rewrite (sum_permutation _ _
    (Permutation_map (fun row => (nth i row 0 - Spec.column_mean m' i) *
                                 (nth j row 0 - Spec.column_mean m' j)) Hp)).
Qed.

Lemma sample_weights_ignore_date_order (minimize : Minimizer) (c : Constraints)
    (a b : DataFrame R) :
  columns a = columns b ->
  Permutation (values a) (values b) ->
  (2 <= length (values a))%nat ->
  solve_optimization minimize c (length (columns a)) (sample_cov a)
  = solve_optimization minimize c (length (columns b)) (sample_cov b).
Proof.
  intros Hcols Hp HT. unfold sample_cov.
  rewrite !cov_transpose by (rewrite <- ?(Permutation_length Hp); exact HT).
  rewrite <- Hcols. do 2 f_equal.
  unfold Spec.sample_covariance.
  apply map_ext; intro i. apply map_ext; intro j.
  now apply covariance_entry_permutation.
Qed.

(** The two order-one series under a solver that keeps its contract and
    comes within 0.01 of the least variance.  On [series_c] the least
    variance, 3/4, is at (3/4, 1/4): a converged run puts more than 0.6 on
    the first asset. *)
Lemma converged_on_series_c (minimize : Minimizer) :
  slsqp_contract minimize ->
  near_optimal (1 / 100) minimize unit_box 2 (Some [[1; 0]; [0; 3]]) ->
  success (minimize_result minimize unit_box 2 (Some [[1; 0]; [0; 3]])) = true ->
  exists x1 x2,
    x (minimize_result minimize unit_box 2 (Some [[1; 0]; [0; 3]])) = [x1; x2] /\
    6 / 10 < x1.
Proof.
  intros Hc Hopt Hs.
  destruct (converged_run minimize Hc _ _ _ Hs) as [Hlen [Hsum Hbox]].
  assert (Hy : Forall2 (fun yi b => fst b <= yi <= snd b) [3 / 4; 1 / 4]
                       (bounds_of unit_box 2)).
  { unfold bounds_of. cbn [repeat unit_box min_weight max_weight].
    apply Forall2_cons; [cbn [fst snd]; lra|].
    apply Forall2_cons; [cbn [fst snd]; lra | apply Forall2_nil]. }
  assert (Hb : budget [3 / 4; 1 / 4] = 0) by (unfold budget; cbn; lra).
  pose proof (Hopt Hs [3 / 4; 1 / 4] _ _ Hb Hy eq_refl eq_refl) as Hle.
  destruct (x (minimize_result minimize unit_box 2 (Some [[1; 0]; [0; 3]])))
    as [|x1 [|x2 [|? ?]]]; try discriminate Hlen.
  exists x1, x2. split; [reflexivity|].
  apply Rabs_le_bounds in Hsum. unfold tolerance in Hsum.
  inversion Hbox as [|? ? H1 Hbox']; subst. inversion Hbox' as [|? ? H2 _]; subst.
  cbn in H1, H2, Hsum, Hle.
  destruct (Rlt_dec (6 / 10) x1) as [|Hn]; [assumption|exfalso].
  apply Rnot_lt_le in Hn.
  assert (Hu : x1 - 3 * x2 <= - (59 / 100)) by lra.
  assert (Hu2 : 59 / 100 * (59 / 100) <= (x1 - 3 * x2) * (x1 - 3 * x2)) by nra.
  assert (Hs2 : 99 / 100 <= (x1 + x2) * (x1 + x2)) by nra.
  nra.
Qed.

(** On [series_d] the second asset has no variance and the least variance,
    0, is at (0, 1): a converged run puts less than 0.4 on the first
    asset. *)
Lemma converged_on_series_d (minimize : Minimizer) :
  slsqp_contract minimize ->
  near_optimal (1 / 100) minimize unit_box 2 (Some [[1; 0]; [0; 0]]) ->
  success (minimize_result minimize unit_box 2 (Some [[1; 0]; [0; 0]])) = true ->
  exists x1 x2,
    x (minimize_result minimize unit_box 2 (Some [[1; 0]; [0; 0]])) = [x1; x2] /\
    x1 < 4 / 10.
Proof.
  intros Hc Hopt Hs.
  destruct (converged_run minimize Hc _ _ _ Hs) as [Hlen _].
  assert (Hy : Forall2 (fun yi b => fst b <= yi <= snd b) [0; 1]
                       (bounds_of unit_box 2)).
  { unfold bounds_of. cbn [repeat unit_box min_weight max_weight].
    apply Forall2_cons; [cbn [fst snd]; lra|].
    apply Forall2_cons; [cbn [fst snd]; lra | apply Forall2_nil]. }
  assert (Hb : budget [0; 1] = 0) by (unfold budget; cbn; lra).
  pose proof (Hopt Hs [0; 1] _ _ Hb Hy eq_refl eq_refl) as Hle.
  destruct (x (minimize_result minimize unit_box 2 (Some [[1; 0]; [0; 0]])))
    as [|x1 [|x2 [|? ?]]]; try discriminate Hlen.
  exists x1, x2. split; [reflexivity|].
  cbn in Hle.
  destruct (Rlt_dec x1 (4 / 10)) as [|Hn]; [assumption|exfalso].
  apply Rnot_lt_le in Hn. nra.
Qed.

(** Whenever such a solver converges on one of the two series at least,
    the sample weights of the two differ. *)
Lemma sample_weights_differ (minimize : Minimizer) (ledoit_wolf : Shrinkage) :
  slsqp_contract minimize ->
  near_optimal (1 / 100) minimize unit_box 2 (sample_cov series_c) ->
  near_optimal (1 / 100) minimize unit_box 2 (sample_cov series_d) ->
  success (minimize_result minimize unit_box 2 (sample_cov series_c)) = true \/
  success (minimize_result minimize unit_box 2 (sample_cov series_d)) = true ->
  exists rc rd,
    optimize_portfolio_dual_methods minimize ledoit_wolf series_c unit_box = Ok rc /\
    optimize_portfolio_dual_methods minimize ledoit_wolf series_d unit_box = Ok rd /\
    sample_weights rc <> sample_weights rd.
Proof.
  rewrite sample_cov_series_c, sample_cov_series_d.
  intros Hc Hoc Hod Hsucc.
  assert (Ec : optimize_portfolio_dual_methods minimize ledoit_wolf series_c unit_box
               = Ok (mkDualResult
                       (if success (minimize_result minimize unit_box 2 (Some [[1; 0]; [0; 3]]))
                        then x (minimize_result minimize unit_box 2 (Some [[1; 0]; [0; 3]]))
                        else initial_weights 2)
                       (if success (minimize_result minimize unit_box 2
                                      (covariance_ (ledoit_wolf (values series_c))))
                        then x (minimize_result minimize unit_box 2
                                  (covariance_ (ledoit_wolf (values series_c))))
                        else initial_weights 2)
                       (shrinkage_ (ledoit_wolf (values series_c))))).
  { apply (optimize_ok minimize ledoit_wolf series_c unit_box).
    - discriminate.
    - now rewrite sample_cov_series_c.
    - reflexivity. }
  assert (Ed : optimize_portfolio_dual_methods minimize ledoit_wolf series_d unit_box
               = Ok (mkDualResult
                       (if success (minimize_result minimize unit_box 2 (Some [[1; 0]; [0; 0]]))
                        then x (minimize_result minimize unit_box 2 (Some [[1; 0]; [0; 0]]))
                        else initial_weights 2)
                       (if success (minimize_result minimize unit_box 2
                                      (covariance_ (ledoit_wolf (values series_d))))
                        then x (minimize_result minimize unit_box 2
                                  (covariance_ (ledoit_wolf (values series_d))))
                        else initial_weights 2)
                       (shrinkage_ (ledoit_wolf (values series_d))))).
  { apply (optimize_ok minimize ledoit_wolf series_d unit_box).
    - discriminate.
    - now rewrite sample_cov_series_d.
    - reflexivity. }
  eexists; eexists. split; [exact Ec|]. split; [exact Ed|].
  cbn [sample_weights].
  assert (Hhalf : initial_weights 2 = [1 / 2; 1 / 2]).
  { unfold initial_weights. cbn [repeat]. do 3 f_equal; cbn; lra. }
  rewrite Hhalf.
  destruct (success (minimize_result minimize unit_box 2 (Some [[1; 0]; [0; 3]]))) eqn:Sc;
    destruct (success (minimize_result minimize unit_box 2 (Some [[1; 0]; [0; 0]]))) eqn:Sd.
  - destruct (converged_on_series_c minimize Hc Hoc Sc) as (c1 & c2 & -> & Hc1).
    destruct (converged_on_series_d minimize Hc Hod Sd) as (d1 & d2 & -> & Hd1).
    intro E; injection E as E _. lra.
  - destruct (converged_on_series_c minimize Hc Hoc Sc) as (c1 & c2 & -> & Hc1).
    intro E; injection E as E _. lra.
  - destruct (converged_on_series_d minimize Hc Hod Sd) as (d1 & d2 & -> & Hd1).
    intro E; injection E as E _. lra.
  - destruct Hsucc; discriminate.
Qed.

Lemma differing_weights_look_ahead (optimize : DataFrame R -> result DualResult) :
  (exists rc rd, optimize series_c = Ok rc /\ optimize series_d = Ok rd /\
                 sample_weights rc <> sample_weights rd) ->
  ~ Spec.no_look_ahead optimize.
Proof.
  intros (rc & rd & Hrc & Hrd & Hne) H.
  assert (Ha : (2 < length (values series_c))%nat) by (simpl; lia).
  assert (Hb : (2 < length (values series_d))%nat) by (simpl; lia).
  assert (Hagree : Spec.agree_before 2 series_c series_d) by (split; reflexivity).
  destruct (H 2%nat series_c series_d rc rd Ha Hb Hagree Hrc Hrd) as [Hs _].
  contradiction.
Qed.

(** The exact solver is one such solver. *)
Lemma two_asset_exact_near_optimal_c :
  near_optimal (1 / 100) two_asset_exact unit_box 2 (sample_cov series_c) /\
  success (minimize_result two_asset_exact unit_box 2 (sample_cov series_c)) = true.
Proof.
  rewrite sample_cov_series_c. unfold near_optimal.
  rewrite (two_asset_exact_interior unit_box 1 0 3 (3 / 4))
    by (cbn [unit_box min_weight max_weight]; lra).
  cbn [x success]. split; [|reflexivity].
  intros _ y fx fy Hb Hbox Hfx Hfy.
  unfold bounds_of in Hbox. cbn [repeat] in Hbox.
  inversion Hbox as [|y1 ? ? ? _ Hbox']; subst.
  inversion Hbox' as [|y2 ? ? ? _ Hbox'']; subst.
  inversion Hbox''; subst.
  unfold budget in Hb. cbn in Hb, Hfx, Hfy.
  injection Hfx as <-. injection Hfy as <-.
  assert (H0 : 0 <= (y1 - 3 / 4) * (y1 - 3 / 4)) by exact (Rle_0_sqr (y1 - 3 / 4)).
  nra.
Qed.

Lemma two_asset_exact_near_optimal_d :
  near_optimal (1 / 100) two_asset_exact unit_box 2 (sample_cov series_d).
Proof.
  rewrite sample_cov_series_d. unfold near_optimal.
  rewrite (two_asset_exact_interior unit_box 1 0 0 0)
    by (cbn [unit_box min_weight max_weight]; lra).
  cbn [x success].
  intros _ y fx fy Hb Hbox Hfx Hfy.
  unfold bounds_of in Hbox. cbn [repeat] in Hbox.
  inversion Hbox as [|y1 ? ? ? _ Hbox']; subst.
  inversion Hbox' as [|y2 ? ? ? _ Hbox'']; subst.
  inversion Hbox''; subst.
  cbn in Hfx, Hfy.
  injection Hfx as <-. injection Hfy as <-.
  assert (H0 : 0 <= y1 * y1) by exact (Rle_0_sqr y1).
  nra.
Qed.

(** With a run that never converges the weights are the equal weights
    whatever the data: the look-ahead goes through converged runs only. *)
Lemma no_look_ahead_without_convergence (ledoit_wolf : Shrinkage) (c : Constraints) :
  Spec.no_look_ahead
    (fun returns_data =>
       optimize_portfolio_dual_methods non_converging ledoit_wolf returns_data c).
Proof.
  intros t a b ra rb _ _ [Hcols _] Ha Hb.
  apply optimize_cases in Ha as (_ & Has & Hal & _).
  apply optimize_cases in Hb as (_ & Hbs & Hbl & _).
  apply solve_optimization_cases in Has as [_ ->], Hal as [_ ->].
  apply solve_optimization_cases in Hbs as [_ ->], Hbl as [_ ->].
  cbn [non_converging minimize_result success]. now rewrite Hcols.
Qed.

(** C1, as the specification words it, fails on the demo: the two series
    agree on the first two months and differ in the third, and for every
    solver that keeps its contract, comes within 0.01 of the least
    variance and converges on one of them at least, the sample weights
    applied in the third month differ; so they do for the exact solver,
    (3/4, 1/4) against (0, 1). *)
Lemma weights_look_ahead :
  Spec.agree_before 2 series_c series_d /\
  (forall minimize ledoit_wolf,
     slsqp_contract minimize ->
     near_optimal (1 / 100) minimize unit_box 2 (sample_cov series_c) ->
     near_optimal (1 / 100) minimize unit_box 2 (sample_cov series_d) ->
     success (minimize_result minimize unit_box 2 (sample_cov series_c)) = true \/
     success (minimize_result minimize unit_box 2 (sample_cov series_d)) = true ->
     ~ Spec.no_look_ahead
         (fun returns_data =>
            optimize_portfolio_dual_methods minimize ledoit_wolf returns_data unit_box)) /\
  ~ Spec.no_look_ahead
      (fun returns_data =>
         optimize_portfolio_dual_methods two_asset_exact identity_shrinkage
           returns_data unit_box).
Proof.
  split; [split; reflexivity|]. split.
  - intros minimize ledoit_wolf Hc Hoc Hod Hs.
    apply differing_weights_look_ahead.
    exact (sample_weights_differ minimize ledoit_wolf Hc Hoc Hod Hs).
  - apply differing_weights_look_ahead.
    apply (sample_weights_differ two_asset_exact identity_shrinkage).
    + exact two_asset_exact_contract.
    + exact (proj1 two_asset_exact_near_optimal_c).
    + exact two_asset_exact_near_optimal_d.
    + left. exact (proj2 two_asset_exact_near_optimal_c).
Qed.

(** C1, amended: the demo applies one weight vector per method to every
    date, obtained from the estimate over the whole series, dates at and
    after t included.  The sample weights are those of the unbiased
    covariance of all the dates and do not change when the dates are
    reordered; the Ledoit-Wolf weights are those of the estimator fitted on
    all the dates; the return realised at date t is that date's row weighted
    by them.  Agreement on the dates before t alone does not fix the
    weights: for a solver that keeps its contract, comes within 0.01 of the
    least variance and converges on one of [series_c] and [series_d], which
    agree on their first two dates, the sample weights differ.  They
    coincide, for frames with the same columns, when the solver converges on
    neither. *)
Theorem weights_are_in_sample (minimize : Minimizer) (ledoit_wolf : Shrinkage) :
  (forall (returns_data : DataFrame R) (c : Constraints) (r : DualResult),
     optimize_portfolio_dual_methods minimize ledoit_wolf returns_data c = Ok r ->
     (2 <= length (values returns_data))%nat ->
     solve_optimization minimize c (length (columns returns_data))
       (Some (Spec.sample_covariance (length (columns returns_data))
                                     (values returns_data)))
       = Ok (sample_weights r) /\
     solve_optimization minimize c (length (columns returns_data))
       (covariance_ (ledoit_wolf (values returns_data)))
       = Ok (lw_weights r) /\
     (forall t row, nth_error (values returns_data) t = Some row ->
        nth_error (portfolio_returns returns_data (sample_weights r)) t
          = Some (np.sum (weighted row (sample_weights r))) /\
        nth_error (portfolio_returns returns_data (lw_weights r)) t
          = Some (np.sum (weighted row (lw_weights r)))) /\
     (forall other r',
        columns other = columns returns_data ->
        Permutation (values returns_data) (values other) ->
        optimize_portfolio_dual_methods minimize ledoit_wolf other c = Ok r' ->
        sample_weights r' = sample_weights r)) /\
  (slsqp_contract minimize ->
   near_optimal (1 / 100) minimize unit_box 2 (sample_cov series_c) ->
   near_optimal (1 / 100) minimize unit_box 2 (sample_cov series_d) ->
   success (minimize_result minimize unit_box 2 (sample_cov series_c)) = true \/
   success (minimize_result minimize unit_box 2 (sample_cov series_d)) = true ->
   (2 < length (values series_c))%nat /\ (2 < length (values series_d))%nat /\
   Spec.agree_before 2 series_c series_d /\
   exists rc rd,
     optimize_portfolio_dual_methods minimize ledoit_wolf series_c unit_box = Ok rc /\
     optimize_portfolio_dual_methods minimize ledoit_wolf series_d unit_box = Ok rd /\
     sample_weights rc <> sample_weights rd) /\
  (forall (a b : DataFrame R) (c : Constraints) (ra rb : DualResult),
     columns a = columns b ->
     success (minimize_result minimize c (length (columns a)) (sample_cov a)) = false ->
     success (minimize_result minimize c (length (columns b)) (sample_cov b)) = false ->
     optimize_portfolio_dual_methods minimize ledoit_wolf a c = Ok ra ->
     optimize_portfolio_dual_methods minimize ledoit_wolf b c = Ok rb ->
     sample_weights ra = sample_weights rb).
Proof.
  split; [|split].
  - intros returns_data c r Hr HT.
    destruct (optimize_cases _ _ _ _ _ Hr) as (_ & Hs & Hl & _).
    split; [|split; [exact Hl|split]].
    + unfold sample_cov in Hs. now rewrite cov_transpose in Hs by exact HT.
    + intros t row Ht. unfold portfolio_returns. split.
      * exact (map_nth_error (fun row => np.sum (weighted row (sample_weights r))) _ _ Ht).
      * exact (map_nth_error (fun row => np.sum (weighted row (lw_weights r))) _ _ Ht).
    + intros other r' Hcols Hperm Hr'.
      destruct (optimize_cases _ _ _ _ _ Hr') as (_ & Hs' & _).
      rewrite (sample_weights_ignore_date_order minimize c returns_data other
                 (eq_sym Hcols) Hperm HT) in Hs.
      rewrite Hs in Hs'. now injection Hs'.
  - intros Hc Hoc Hod Hs.
    split; [simpl; lia|]. split; [simpl; lia|]. split; [split; reflexivity|].
    exact (sample_weights_differ minimize ledoit_wolf Hc Hoc Hod Hs).
  - intros a b c ra rb Hcols Fa Fb Ha Hb.
    destruct (optimize_cases _ _ _ _ _ Ha) as (_ & Has & _).
    destruct (optimize_cases _ _ _ _ _ Hb) as (_ & Hbs & _).
    apply solve_optimization_cases in Has as [_ ->].
    apply solve_optimization_cases in Hbs as [_ ->].
    rewrite Fa, Fb. now rewrite Hcols.
Qed.

Lemma weights_are_in_sample_witness :
  optimize_portfolio_dual_methods two_asset_exact identity_shrinkage series_c unit_box
    = Ok (mkDualResult [3 / 4; 1 - 3 / 4] [1 / 2; 1 - 1 / 2] (Some 1)) /\
  (2 <= length (values series_c))%nat /\
  solve_optimization two_asset_exact unit_box 2
    (Some (Spec.sample_covariance 2 (values series_c))) = Ok [3 / 4; 1 - 3 / 4] /\
  slsqp_contract two_asset_exact /\
  near_optimal (1 / 100) two_asset_exact unit_box 2 (sample_cov series_c) /\
  near_optimal (1 / 100) two_asset_exact unit_box 2 (sample_cov series_d) /\
  success (minimize_result two_asset_exact unit_box 2 (sample_cov series_c)) = true /\
  exists rc rd,
    optimize_portfolio_dual_methods two_asset_exact identity_shrinkage series_c unit_box
      = Ok rc /\
    optimize_portfolio_dual_methods two_asset_exact identity_shrinkage series_d unit_box
      = Ok rd /\
    sample_weights rc <> sample_weights rd.
Proof.
  assert (HT : (2 <= length (values series_c))%nat) by (simpl; lia).
  pose proof (weights_are_in_sample two_asset_exact identity_shrinkage) as [Hpos [Hneg _]].
  split; [exact optimize_series_c|]. split; [exact HT|].
  split; [exact (proj1 (Hpos series_c unit_box _ optimize_series_c HT))|].
  split; [exact two_asset_exact_contract|].
  split; [exact (proj1 two_asset_exact_near_optimal_c)|].
  split; [exact two_asset_exact_near_optimal_d|].
  split; [exact (proj2 two_asset_exact_near_optimal_c)|].
  exact (proj2 (proj2 (proj2
           (Hneg two_asset_exact_contract (proj1 two_asset_exact_near_optimal_c)
                 two_asset_exact_near_optimal_d
                 (or_introl (proj2 two_asset_exact_near_optimal_c)))))).
Defined.

(** ** Coverage *)

(** The demo cleans by row: [dropna()] removes dates and keeps every
    ticker. *)
Lemma dropna_keeps_columns (df : DataFrame float) :
  columns (pd.dropna df) = columns df.
Proof. reflexivity. Qed.

Lemma in_combine_seq {A : Type} (l : list A) (s k : nat) (a : A) :
  In (a, k) (combine l (seq s (length l))) ->
  (s <= k)%nat /\ nth_error l (k - s) = Some a.
Proof.
  revert s; induction l as [|b l IH]; intros s H; [contradiction|].
  cbn [length seq combine] in H. destruct H as [H|H].
  - injection H as -> ->. rewrite Nat.sub_diag. split; [lia | reflexivity].
  - apply IH in H as [Hle Hnth]. split; [lia|].
    replace (k - s)%nat with (S (k - S s)) by lia. exact Hnth.
Qed.

Lemma eligible_tickers_sound (p : CoverageFilter.CoverageParams)
    (window : DataFrame float) (ticker : string) :
  In ticker (CoverageFilter.eligible_tickers p window) ->
  exists j, nth_error (columns window) j = Some ticker /\
            CoverageFilter.eligible p (values window) j = true.
Proof.
  unfold CoverageFilter.eligible_tickers. intro H.
  apply in_map_iff in H as ([tk j] & Hfst & Hin). cbn in Hfst; subst tk.
  apply filter_In in Hin as [Hin Hel]. cbn in Hel.
  apply in_combine_seq in Hin as [_ Hnth]. rewrite Nat.sub_0_r in Hnth.
  now exists j.
Qed.

(** C6: with [min_observations = 36] and [max_missing_pct = 0.10], a
    ticker with 31 observations in a window of 36 months (5 missing, a
    fraction of 5/36 above 10%) fails the eligibility rule and is not in
    the window's eligible ticker set. *)
Theorem sparse_ticker_is_excluded (window : DataFrame float) (ticker : string) (j : nat) :
  NoDup (columns window) ->
  nth_error (columns window) j = Some ticker ->
  length (values window) = 36%nat ->
  CoverageFilter.count_observed (values window) j = 31%nat ->
  (CoverageFilter.missing_fraction (values window) j == 5 # 36)%Q /\
  CoverageFilter.eligible CoverageFilter.default_params (values window) j = false /\
  ~ In ticker (CoverageFilter.eligible_tickers CoverageFilter.default_params window).
Proof.
  intros Hnd Hj Hlen Hcount.
  assert (Hfrac : (CoverageFilter.missing_fraction (values window) j == 5 # 36)%Q).
  { unfold CoverageFilter.missing_fraction. rewrite Hlen, Hcount. reflexivity. }
  assert (Hel : CoverageFilter.eligible CoverageFilter.default_params (values window) j = false).
  { unfold CoverageFilter.eligible. rewrite Hcount. reflexivity. }
  split; [exact Hfrac|]. split; [exact Hel|].
  intro Hin. apply eligible_tickers_sound in Hin as (k & Hk & Helk).
  assert (k = j).
  { apply (proj1 (NoDup_nth_error (columns window)) Hnd).
    - apply nth_error_Some. congruence.
    - congruence. }
  subst k. congruence.
Qed.

Lemma sparse_ticker_is_excluded_witness :
  NoDup (columns gappy_window) /\
  nth_error (columns gappy_window) 1 = Some "BBB"%string /\
  length (values gappy_window) = 36%nat /\
  CoverageFilter.count_observed (values gappy_window) 1 = 31%nat /\
  ~ In "BBB"%string
       (CoverageFilter.eligible_tickers CoverageFilter.default_params gappy_window).
Proof.
  assert (Hnd : NoDup (columns gappy_window)).
  { cbn. constructor; [|constructor; [|constructor]]; cbn; intuition discriminate. }
  assert (Hj : nth_error (columns gappy_window) 1 = Some "BBB"%string) by reflexivity.
  assert (Hlen : length (values gappy_window) = 36%nat) by reflexivity.
  assert (Hcount : CoverageFilter.count_observed (values gappy_window) 1 = 31%nat)
    by reflexivity.
  repeat (split; [assumption|]).
  exact (proj2 (proj2 (sparse_ticker_is_excluded gappy_window "BBB"%string 1
                         Hnd Hj Hlen Hcount))).
Defined.

(** * Further properties of the code *)

(** ** Finite sums *)

Lemma sum_ext_in {A : Type} (f g : A -> R) (l : list A) :
  (forall a, In a l -> f a = g a) ->
  np.sum (map f l) = np.sum (map g l).
Proof.
  intro H. f_equal. now apply map_ext_in.
Qed.

Lemma sum_map_plus {A : Type} (f g : A -> R) (l : list A) :
  np.sum (map (fun a => f a + g a) l) = np.sum (map f l) + np.sum (map g l).
Proof.
  induction l as [|a l IH]; cbn [map np.sum fold_right] in *; [lra|].
  fold (np.sum (map f l)) (np.sum (map g l))
       (np.sum (map (fun a => f a + g a) l)) in *. lra.
Qed.

Lemma sum_map_minus {A : Type} (f g : A -> R) (l : list A) :
  np.sum (map (fun a => f a - g a) l) = np.sum (map f l) - np.sum (map g l).
Proof.
  induction l as [|a l IH]; cbn [map np.sum fold_right] in *; [lra|].
  fold (np.sum (map f l)) (np.sum (map g l))
       (np.sum (map (fun a => f a - g a) l)) in *. lra.
Qed.

Lemma sum_scal_l {A : Type} (c : R) (f : A -> R) (l : list A) :
  np.sum (map (fun a => c * f a) l) = c * np.sum (map f l).
Proof.
  induction l as [|a l IH]; cbn [map np.sum fold_right] in *; [lra|].
  fold (np.sum (map f l)) (np.sum (map (fun a => c * f a) l)) in *. lra.
Qed.

Lemma sum_scal_r {A : Type} (c : R) (f : A -> R) (l : list A) :
  np.sum (map (fun a => f a * c) l) = np.sum (map f l) * c.
Proof.
  rewrite Rmult_comm, <- sum_scal_l. apply sum_ext_in; intros; ring.
Qed.

Lemma sum_div {A : Type} (c : R) (f : A -> R) (l : list A) :
  np.sum (map (fun a => f a / c) l) = np.sum (map f l) / c.
Proof.
  unfold Rdiv. apply sum_scal_r.
Qed.

Lemma sum_zero {A : Type} (l : list A) : np.sum (map (fun _ => 0) l) = 0.
Proof.
  induction l as [|a l IH]; cbn [map np.sum fold_right] in *; [reflexivity|].
  fold (np.sum (map (fun _ : A => 0) l)) in *. lra.
Qed.

Lemma sum_swap {A B : Type} (f : A -> B -> R) (la : list A) (lb : list B) :
  np.sum (map (fun a => np.sum (map (fun b => f a b) lb)) la)
  = np.sum (map (fun b => np.sum (map (fun a => f a b) la)) lb).
Proof.
  induction la as [|a la IH].
  - cbn [map np.sum fold_right]. now rewrite sum_zero.
  - cbn [map np.sum fold_right].
    fold (np.sum (map (fun a => np.sum (map (fun b => f a b) lb)) la)).
    rewrite IH, <- sum_map_plus. reflexivity.
Qed.

Lemma sum_nonneg (l : list R) : Forall (fun a => 0 <= a) l -> 0 <= np.sum l.
Proof.
  induction 1 as [|a l Ha _ IH]; cbn [np.sum fold_right]; [lra|].
  fold (np.sum l). lra.
Qed.

Lemma sum_ge_box (lo : R) (l : list R) :
  Forall (fun a => lo <= a) l -> INR (length l) * lo <= np.sum l.
Proof.
  induction 1 as [|a l Ha _ IH].
  - simpl; lra.
  - change (length (a :: l)) with (S (length l)). rewrite S_INR.
    cbn [np.sum fold_right]. fold (np.sum l). lra.
Qed.

(** ** Mean, variance and the Sharpe ratio *)

Lemma var_nonneg (s : list R) (v : R) : pd.var s = Some v -> 0 <= v.
Proof.
  unfold pd.var. destruct (pd.mean s) as [m|]; [|discriminate].
  destruct (Nat.leb_spec (length s) 1) as [|Hlen]; [discriminate|].
  intro H; injection H as <-.
  apply Rmult_le_pos.
  - apply sum_nonneg. apply Forall_forall. intros y Hy.
    apply in_map_iff in Hy as (z & <- & _). exact (Rle_0_sqr (z - m)).
  - apply Rlt_le, Rinv_0_lt_compat.
    assert (2 <= INR (length s)) by (apply (le_INR 2); lia). lra.
Qed.

(** The Sharpe ratio of [calc_metrics] from the mean and the variance. *)
Lemma sharpe_value (returns : list R) (m v : R) :
  pd.mean returns = Some m ->
  pd.var returns = Some v ->
  sharpe_ratio (calc_metrics returns)
  = if Rlt_dec 0 (sqrt v * sqrt 12)
    then Some (m * 12 / (sqrt v * sqrt 12)) else Some 0.
Proof.
  intros Hm Hv. unfold calc_metrics; cbn [sharpe_ratio].
  unfold pd.std. rewrite Hm, Hv. cbn.
  destruct (Rlt_dec 0 (sqrt v * sqrt 12)) as [Hpos|]; [|reflexivity].
  destruct (Req_dec_T (sqrt v * sqrt 12) 0); [lra | reflexivity].
Qed.

(** X1: the Sharpe and Sortino entries are numbers for every series,
    never NaN: with fewer than two dates, where the volatility is NaN,
    both are 0. *)
Theorem sharpe_is_never_nan (returns : list R) :
  exists s,
    sharpe_ratio (calc_metrics returns) = Some s /\
    sortino_ratio (calc_metrics returns) = Some (s * (11 / 10)) /\
    ((length returns < 2)%nat ->
     annual_volatility (calc_metrics returns) = nan /\ s = 0).
Proof.
  destruct (sharpe_finite returns) as (s & Hs). exists s.
  split; [exact Hs|]. split.
  - unfold sortino_ratio. now rewrite Hs.
  - intro Hshort. split.
    + unfold calc_metrics; cbn [annual_volatility]. unfold pd.std.
      now rewrite var_undefined.
    + rewrite sharpe_short_series in Hs by exact Hshort. now injection Hs.
Qed.

(** ** Drawdown and total return *)

Lemma prod_pos (l : list R) : Forall (fun a => 0 < a) l -> 0 < Spec.prod l.
Proof.
  unfold Spec.prod.
  induction 1 as [|a l Ha _ IH]; cbn [fold_right]; [lra|].
  now apply Rmult_lt_0_compat.
Qed.

Lemma prod_ge_1 (l : list R) : Forall (fun a => 1 <= a) l -> 1 <= Spec.prod l.
Proof.
  unfold Spec.prod.
  induction 1 as [|a l Ha _ IH]; cbn [fold_right]; [lra | nra].
Qed.

Lemma Forall_growth (P : R -> Prop) (returns : list R) (l : list R) :
  (forall r, In r returns -> P (1 + r)) ->
  incl l returns ->
  Forall P (map (fun r => 1 + r) l).
Proof.
  intros HP Hincl. apply Forall_forall. intros y Hy.
  apply in_map_iff in Hy as (r & <- & Hr). apply HP, Hincl, Hr.
Qed.

Lemma incl_firstn {A : Type} (n : nat) (l : list A) : incl (firstn n l) l.
Proof.
  intros a Ha. rewrite <- (firstn_skipn n l). apply in_or_app; now left.
Qed.

Lemma incl_skipn {A : Type} (n : nat) (l : list A) : incl (skipn n l) l.
Proof.
  intros a Ha. rewrite <- (firstn_skipn n l). apply in_or_app; now right.
Qed.

Lemma cum_pos (returns : list R) (t : nat) :
  (forall r, In r returns -> -1 < r) -> 0 < Spec.cum returns t.
Proof.
  intro H. unfold Spec.cum. apply prod_pos.
  apply (Forall_growth (fun a => 0 < a) returns).
  - intros r Hr. specialize (H r Hr). lra.
  - apply incl_firstn.
Qed.

(** The cumulative product at [t] is the one at an earlier [s] times the
    growth in between. *)
Lemma cum_growth (returns : list R) (s t : nat) :
  (s <= t)%nat ->
  Spec.cum returns t
  = Spec.cum returns s
    * Spec.prod (map (fun r => 1 + r) (skipn (S s) (firstn (S t) returns))).
Proof.
  intro Hst. unfold Spec.cum.
  rewrite <- (firstn_skipn (S s) (firstn (S t) returns)) at 1.
  rewrite firstn_firstn. replace (Nat.min (S s) (S t)) with (S s) by lia.
  now rewrite map_app, prod_app.
Qed.

Lemma running_max_ge_cum (returns : list R) (t : nat) :
  Spec.cum returns t <= running_max returns t.
Proof.
  unfold running_max. apply fold_right_max_ge.
  destruct t as [|t]; [now left|].
  right. apply in_map, in_seq. lia.
Qed.

Lemma min_all_in (lo hi : R) (l : list float) :
  l <> [] ->
  (forall y, In y l -> exists v, y = Some v /\ lo < v <= hi) ->
  exists m, pd.min l = Some m /\ lo < m <= hi.
Proof.
  induction l as [|y l IH]; [contradiction|]. intros _ Hall.
  destruct (Hall y (or_introl eq_refl)) as (v & -> & Hv).
  cbn [pd.min]. destruct l as [|z l].
  - cbn [pd.min]. now exists v.
  - destruct IH as (m & -> & Hm); [discriminate | |].
    + intros y Hy. apply Hall. now right.
    + exists (Rmin v m). split; [reflexivity|].
      unfold Rmin. destruct (Rle_dec v m); lra.
Qed.

(** The drawdown at a date, for returns above -100%. *)
Lemma drawdown_range (returns : list R) (t : nat) :
  (forall r, In r returns -> -1 < r) ->
  exists v, drawdown_at returns t = Some v /\ -1 < v <= 0.
Proof.
  intro H.
  pose proof (cum_pos returns t H) as Hc.
  pose proof (running_max_ge_cum returns t) as Hge.
  unfold drawdown_at, fdiv.
  destruct (Req_dec_T (running_max returns t) 0) as [E|E]; [lra|].
  eexists; split; [reflexivity|].
  set (c := Spec.cum returns t) in *. set (m := running_max returns t) in *.
  assert (Hm : 0 < m) by lra.
  replace ((c - m) / m) with (c / m - 1) by (field; lra).
  assert (0 < c / m) by (apply Rdiv_lt_0_compat; lra).
  assert (c / m <= 1).
  { apply (Rmult_le_reg_r m); [exact Hm|].
    replace (c / m * m) with c by (field; lra). lra. }
  lra.
Qed.

(** X4: when every return is above -100% and there is at least one, the
    max drawdown of [calc_metrics] is a number in (-1, 0]. *)
Theorem max_drawdown_range (returns : list R) :
  returns <> [] ->
  (forall r, In r returns -> -1 < r) ->
  exists m, max_drawdown (calc_metrics returns) = Some m /\ -1 < m <= 0.
Proof.
  intros Hne H. unfold calc_metrics; cbn [max_drawdown].
  rewrite drawdown_series. apply min_all_in.
  - destruct returns; [contradiction | discriminate].
  - intros y Hy. apply in_map_iff in Hy as (t & <- & _).
    now apply drawdown_range.
Qed.

Lemma max_drawdown_range_witness :
  [1 / 10; - (1 / 2)] <> [] /\
  (forall r, In r [1 / 10; - (1 / 2)] -> -1 < r) /\
  exists m, max_drawdown (calc_metrics [1 / 10; - (1 / 2)]) = Some m /\ -1 < m <= 0.
Proof.
  assert (Hne : [1 / 10; - (1 / 2)] <> []) by discriminate.
  assert (H : forall r, In r [1 / 10; - (1 / 2)] -> -1 < r).
  { intros r [<-|[<-|[]]]; lra. }
  split; [exact Hne|]. split; [exact H|].
  exact (max_drawdown_range _ Hne H).
Defined.

Lemma fold_right_max_eq (a : R) (l : list R) (M : R) :
  In M (a :: l) -> (forall y, In y (a :: l) -> y <= M) ->
  fold_right Rmax a l = M.
Proof.
  intros Hin Hall. apply Rle_antisym.
  - destruct (fold_right_max_in a l) as [H|H].
    + rewrite <- H. apply Hall. now left.
    + apply Hall. now right.
  - now apply fold_right_max_ge.
Qed.

Lemma cum_monotone (returns : list R) (s t : nat) :
  (forall r, In r returns -> 0 <= r) ->
  (s <= t)%nat -> Spec.cum returns s <= Spec.cum returns t.
Proof.
  intros H Hst. rewrite (cum_growth returns s t Hst).
  assert (Hs : 0 < Spec.cum returns s).
  { apply cum_pos. intros r Hr. specialize (H r Hr). lra. }
  assert (Hk : 1 <= Spec.prod (map (fun r => 1 + r)
                                   (skipn (S s) (firstn (S t) returns)))).
  { apply prod_ge_1. apply (Forall_growth (fun a => 1 <= a) returns).
    - intros r Hr. specialize (H r Hr). lra.
    - eapply incl_tran; [apply incl_skipn | apply incl_firstn]. }
  nra.
Qed.

Lemma min_all_zero (l : list float) :
  l <> [] -> (forall y, In y l -> y = Some 0) -> pd.min l = Some 0.
Proof.
  induction l as [|y l IH]; [contradiction|]. intros _ Hall.
  rewrite (Hall y (or_introl eq_refl)). cbn [pd.min].
  destruct l as [|z l]; [reflexivity|].
  rewrite IH; [|discriminate | intros u Hu; apply Hall; now right].
  f_equal. unfold Rmin. destruct (Rle_dec 0 0); reflexivity.
Qed.

(** X5: a series that never loses (every return at least 0, at least one
    date) has a max drawdown of exactly 0. *)
Theorem no_loss_no_drawdown (returns : list R) :
  returns <> [] ->
  (forall r, In r returns -> 0 <= r) ->
  max_drawdown (calc_metrics returns) = Some 0.
Proof.
  intros Hne H. unfold calc_metrics; cbn [max_drawdown].
  rewrite drawdown_series.
  assert (Hall : forall t, drawdown_at returns t = Some 0).
  { intro t.
    assert (Hm : running_max returns t = Spec.cum returns t).
    { unfold running_max. apply fold_right_max_eq.
      - destruct t as [|t]; [now left|]. right. apply in_map, in_seq. lia.
      - intros y [<-|Hy].
        + apply cum_monotone; [exact H | lia].
        + apply in_map_iff in Hy as (s & <- & Hs). apply in_seq in Hs.
          apply cum_monotone; [exact H | lia]. }
    assert (Hc : 0 < Spec.cum returns t).
    { apply cum_pos. intros r Hr. specialize (H r Hr). lra. }
    unfold drawdown_at, fdiv. rewrite Hm.
    destruct (Req_dec_T (Spec.cum returns t) 0); [lra|].
    f_equal. field. lra. }
  apply min_all_zero.
  - destruct returns; [contradiction | discriminate].
  - intros y Hy. apply in_map_iff in Hy as (t & <- & _). apply Hall.
Qed.

Lemma no_loss_no_drawdown_witness :
  [1 / 100; 0; 3 / 100] <> [] /\
  (forall r, In r [1 / 100; 0; 3 / 100] -> 0 <= r) /\
  max_drawdown (calc_metrics [1 / 100; 0; 3 / 100]) = Some 0.
Proof.
  assert (Hne : [1 / 100; 0; 3 / 100] <> []) by discriminate.
  assert (H : forall r, In r [1 / 100; 0; 3 / 100] -> 0 <= r).
  { intros r [<-|[<-|[<-|[]]]]; lra. }
  split; [exact Hne|]. split; [exact H|].
  exact (no_loss_no_drawdown _ Hne H).
Defined.

(** X6: one plus the total return of the performance table is the last
    value of the cumulative series from which [calc_metrics] takes the
    drawdown. *)
Theorem total_return_is_last_cumulative (returns : list R) (d : R) :
  returns <> [] ->
  last (pd.cumprod (map (fun r => 1 + r) returns)) d
  = 1 + total_return (performance returns).
Proof.
  intro Hne. rewrite cumprod_spec. cbn [performance total_return].
  destruct (length returns) as [|n] eqn:Hn.
  - destruct returns; [contradiction | discriminate].
  - rewrite seq_S, map_app. cbn [map Nat.add]. rewrite last_last.
    unfold Spec.cum. rewrite <- Hn, firstn_all.
    unfold Spec.prod, series_prod. ring.
Qed.

Lemma total_return_is_last_cumulative_witness :
  [1 / 10; - (1 / 2)] <> [] /\
  last (pd.cumprod (map (fun r => 1 + r) [1 / 10; - (1 / 2)])) 0
  = 1 + total_return (performance [1 / 10; - (1 / 2)]).
Proof.
  assert (Hne : [1 / 10; - (1 / 2)] <> []) by discriminate.
  split; [exact Hne|]. exact (total_return_is_last_cumulative _ 0 Hne).
Defined.

(** X7: total returns compound: over two consecutive stretches of months,
    one plus the total return is the product of the two stretches' own. *)
Theorem total_return_compounds (a b : list R) :
  1 + total_return (performance (a ++ b))
  = (1 + total_return (performance a)) * (1 + total_return (performance b)).
Proof.
  cbn [performance total_return]. rewrite map_app.
  change series_prod with Spec.prod. rewrite prod_app. ring.
Qed.

(** ** Best month, worst month, win rate *)

Lemma series_min_le (s : list R) (lo : R) :
  series_min s = Some lo -> Forall (fun a => lo <= a) s.
Proof.
  revert lo; induction s as [|a s IH]; intros lo H; [constructor|].
  cbn [series_min] in H. destruct (series_min s) as [b|] eqn:Hs.
  - injection H as <-. constructor; [apply Rmin_l|].
    eapply Forall_impl; [|apply (IH b eq_refl)].
    cbn; intros x Hx. eapply Rle_trans; [apply Rmin_r | exact Hx].
  - injection H as <-. destruct s as [|c s].
    + constructor; [lra | constructor].
    + cbn [series_min] in Hs. destruct (series_min s); discriminate.
Qed.

Lemma series_max_ge (s : list R) (hi : R) :
  series_max s = Some hi -> Forall (fun a => a <= hi) s.
Proof.
  revert hi; induction s as [|a s IH]; intros hi H; [constructor|].
  cbn [series_max] in H. destruct (series_max s) as [b|] eqn:Hs.
  - injection H as <-. constructor; [apply Rmax_l|].
    eapply Forall_impl; [|apply (IH b eq_refl)].
    cbn; intros x Hx. eapply Rle_trans; [exact Hx | apply Rmax_r].
  - injection H as <-. destruct s as [|c s].
    + constructor; [lra | constructor].
    + cbn [series_max] in Hs. destruct (series_max s); discriminate.
Qed.

Lemma series_extremes_defined (s : list R) :
  s <> [] -> exists lo hi, series_min s = Some lo /\ series_max s = Some hi.
Proof.
  destruct s as [|a s]; [contradiction|]. intros _.
  cbn [series_min series_max].
  destruct (series_min s), (series_max s); eexists; eexists; split; reflexivity.
Qed.

(** X8: for a non-empty series the annualised return of the performance
    table lies between twelve times the worst month and twelve times the
    best month. *)
Theorem annual_return_between_extremes (returns : list R) :
  returns <> [] ->
  exists lo hi a,
    worst_month (performance returns) = Some lo /\
    best_month (performance returns) = Some hi /\
    annualized_return (performance returns) = Some a /\
    12 * lo <= a <= 12 * hi.
Proof.
  intro Hne. destruct (series_extremes_defined returns Hne) as (lo & hi & Hlo & Hhi).
  exists lo, hi, (np.sum returns / INR (length returns) * 12).
  cbn [performance worst_month best_month annualized_return].
  split; [exact Hlo|]. split; [exact Hhi|].
  split.
  - unfold calc_metrics; cbn [annual_return]. now rewrite mean_defined.
  - pose proof (sum_ge_box lo returns (series_min_le _ _ Hlo)) as H1.
    pose proof (sum_le_box hi returns (series_max_ge _ _ Hhi)) as H2.
    assert (HT : 0 < INR (length returns)).
    { apply lt_0_INR. destruct returns; [contradiction | simpl; lia]. }
    assert (Hm : lo <= np.sum returns / INR (length returns) <= hi).
    { split.
      - apply (Rmult_le_reg_r (INR (length returns))); [exact HT|].
        replace (np.sum returns / INR (length returns) * INR (length returns))
          with (np.sum returns) by (field; lra). lra.
      - apply (Rmult_le_reg_r (INR (length returns))); [exact HT|].
        replace (np.sum returns / INR (length returns) * INR (length returns))
          with (np.sum returns) by (field; lra). lra. }
    lra.
Qed.

Lemma annual_return_between_extremes_witness :
  sortino_sample <> [] /\
  exists lo hi a,
    worst_month (performance sortino_sample) = Some lo /\
    best_month (performance sortino_sample) = Some hi /\
    annualized_return (performance sortino_sample) = Some a /\
    12 * lo <= a <= 12 * hi.
Proof.
  assert (Hne : sortino_sample <> []) by discriminate.
  split; [exact Hne|]. exact (annual_return_between_extremes _ Hne).
Defined.

(** X9: the win rate is NaN for an empty series and otherwise a number
    between 0 and 1, equal to 1 exactly when every month is positive. *)
Theorem win_rate_range (returns : list R) :
  (returns = [] -> win_rate (performance returns) = nan) /\
  (returns <> [] ->
   exists w, win_rate (performance returns) = Some w /\ 0 <= w <= 1 /\
             (w = 1 <-> forall r, In r returns -> 0 < r)).
Proof.
  split; [intros ->; reflexivity|].
  intro Hne. cbn [performance win_rate]. unfold positive_share.
  set (ind := fun r : R => if Rlt_dec 0 r then 1 else 0).
  rewrite mean_defined by (intro E; apply map_eq_nil in E; contradiction).
  rewrite length_map. eexists; split; [reflexivity|].
  assert (HT : 0 < INR (length returns)).
  { apply lt_0_INR. destruct returns; [contradiction | simpl; lia]. }
  assert (Hlo : 0 <= np.sum (map ind returns)).
  { apply sum_nonneg, Forall_forall. intros y Hy.
    apply in_map_iff in Hy as (r & <- & _). unfold ind.
    destruct (Rlt_dec 0 r); lra. }
  assert (Hhi : np.sum (map ind returns) <= INR (length returns)).
  { pose proof (sum_le_box 1 (map ind returns)) as H.
    rewrite length_map in H. rewrite <- (Rmult_1_r (INR (length returns))).
    apply H, Forall_forall. intros y Hy.
    apply in_map_iff in Hy as (r & <- & _). unfold ind.
    destruct (Rlt_dec 0 r); lra. }
  assert (Hall : np.sum (map ind returns) = INR (length returns)
                 <-> forall r, In r returns -> 0 < r).
  { clear Hne HT Hlo Hhi. induction returns as [|a rs IH].
    - cbn. split; [intros _ r [] | reflexivity].
    - change (length (a :: rs)) with (S (length rs)). rewrite S_INR.
      cbn [map np.sum fold_right]. fold (np.sum (map ind rs)).
      assert (Hrs : np.sum (map ind rs) <= INR (length rs)).
      { pose proof (sum_le_box 1 (map ind rs)) as H.
        rewrite length_map in H. rewrite <- (Rmult_1_r (INR (length rs))).
        apply H, Forall_forall. intros y Hy.
        apply in_map_iff in Hy as (r & <- & _). unfold ind.
        destruct (Rlt_dec 0 r); lra. }
      unfold ind at 1. destruct (Rlt_dec 0 a) as [Ha|Ha].
      + split.
        * intros E r [<-|Hr]; [exact Ha|]. apply IH; [lra | exact Hr].
        * intro H. assert (np.sum (map ind rs) = INR (length rs)).
          { apply IH. intros r Hr. apply H. now right. }
          lra.
      + split.
        * intro E. lra.
        * intro H. exfalso. apply Ha, H. now left. }
  split.
  - split.
    + apply Rmult_le_pos; [exact Hlo | apply Rlt_le, Rinv_0_lt_compat, HT].
    + apply (Rmult_le_reg_r (INR (length returns))); [exact HT|].
      replace (np.sum (map ind returns) / INR (length returns) * INR (length returns))
        with (np.sum (map ind returns)) by (field; lra). lra.
  - rewrite <- Hall. split; intro E.
    + apply (Rmult_eq_compat_r (INR (length returns))) in E.
      replace (np.sum (map ind returns) / INR (length returns) * INR (length returns))
        with (np.sum (map ind returns)) in E by (field; lra). lra.
    + rewrite E. field. lra.
Qed.

(** ** The objective and the realised returns *)

Lemma sum_weighted (row w : Vector) : np.sum (weighted row w) = np.dot row w.
Proof.
  revert w; induction row as [|a row IH]; intros [|b w]; try reflexivity.
  cbn [weighted np.sum fold_right np.dot].
  fold (np.sum (weighted row w)). now rewrite IH.
Qed.

Lemma dot_nth (n : nat) (u v : Vector) :
  length v = n ->
  np.dot u v = np.sum (map (fun j => nth j u 0 * nth j v 0) (seq 0 n)).
Proof.
  revert u v; induction n as [|n IH]; intros u v Hlen.
  - destruct v; [|discriminate]. now destruct u.
  - destruct v as [|b v]; [discriminate|]. injection Hlen as Hlen.
    cbn [seq map np.sum fold_right]. rewrite map_seq_shift.
    fold (np.sum (map (fun t => nth (S t) u 0 * nth (S t) (b :: v) 0) (seq 0 n))).
    destruct u as [|a u].
    + cbn [np.dot nth]. rewrite (sum_ext_in _ (fun _ => 0)).
      * rewrite sum_zero. ring.
      * intros j _. ring.
    + cbn [np.dot nth]. now rewrite (IH u v Hlen).
Qed.

Lemma dot_map_seq_l (n : nat) (g : nat -> R) (v : Vector) :
  length v = n ->
  np.dot (map g (seq 0 n)) v = np.sum (map (fun j => g j * nth j v 0) (seq 0 n)).
Proof.
  intro Hlen. rewrite (dot_nth n _ _ Hlen). apply sum_ext_in.
  intros j Hj. apply in_seq in Hj. rewrite nth_map_seq.
  destruct (Nat.ltb_spec j n); [reflexivity | lia].
Qed.

Lemma dot_map_seq_r (n : nat) (g : nat -> R) (u : Vector) :
  np.dot u (map g (seq 0 n)) = np.sum (map (fun i => nth i u 0 * g i) (seq 0 n)).
Proof.
  rewrite (dot_nth n) by (now rewrite length_map, length_seq).
  apply sum_ext_in. intros j Hj. apply in_seq in Hj. rewrite nth_map_seq.
  destruct (Nat.ltb_spec j n); [reflexivity | lia].
Qed.

(** The deviation of a date's weighted return from its mean over the
    dates. *)
Lemma quadratic_form (n : nat) (rows : Matrix) (w : Vector) :
  length w = n ->
  np.dot w (np.matvec (Spec.sample_covariance n rows) w)
  = np.sum (map (fun row =>
       np.sum (map (fun j => (nth j row 0 - Spec.column_mean rows j) * nth j w 0)
                   (seq 0 n))
       * np.sum (map (fun j => (nth j row 0 - Spec.column_mean rows j) * nth j w 0)
                     (seq 0 n))) rows)
    / (INR (length rows) - 1).
Proof.
  intro Hlen.
  set (a := fun (row : list R) (j : nat) => nth j row 0 - Spec.column_mean rows j).
  set (q := fun row => np.sum (map (fun j => a row j * nth j w 0) (seq 0 n))).
  set (d := INR (length rows) - 1).
  change (np.dot w (np.matvec (Spec.sample_covariance n rows) w)
          = np.sum (map (fun row => q row * q row) rows) / d).
  unfold np.matvec, Spec.sample_covariance. rewrite map_map, dot_map_seq_r.
  assert (Hrow : forall i,
    np.dot (map (fun j => Spec.covariance_entry rows i j) (seq 0 n)) w
    = np.sum (map (fun row => a row i * q row) rows) / d).
  { intro i. rewrite (dot_map_seq_l n _ _ Hlen).
    unfold Spec.covariance_entry, q. fold d.
    rewrite (sum_ext_in (fun row => a row i * np.sum (map (fun j => a row j * nth j w 0) (seq 0 n)))
                        (fun row => np.sum (map (fun j => a row i * (a row j * nth j w 0)) (seq 0 n))))
      by (intros; now rewrite sum_scal_l).
    rewrite sum_swap, <- sum_div. apply sum_ext_in. intros j _.
    rewrite <- sum_div, <- sum_scal_r, <- sum_div. apply sum_ext_in. intros row _.
    unfold a, Rdiv. ring. }
  rewrite (sum_ext_in _ (fun i => np.sum (map (fun row => nth i w 0 * a row i * q row / d) rows))).
  - rewrite sum_swap, <- sum_div. apply sum_ext_in. intros row _.
    rewrite (sum_ext_in _ (fun i => a row i * nth i w 0 * (q row / d)))
      by (intros; unfold Rdiv; ring).
    rewrite sum_scal_r. unfold q, Rdiv. ring.
  - intros i _. rewrite Hrow, <- sum_div, <- sum_scal_l.
    apply sum_ext_in. intros row _. unfold Rdiv. ring.
Qed.

Lemma T_minus_1_pos (rows : Matrix) :
  (2 <= length rows)%nat -> 0 < INR (length rows) - 1.
Proof.
  intro H. assert (2 <= INR (length rows)) by (apply (le_INR 2); lia). lra.
Qed.

(** X10: the sample covariance matrix is positive semi-definite: over at
    least two dates the objective handed to the solver is a number and is
    never negative, at any weight vector with one entry per ticker. *)
Theorem sample_objective_nonnegative (returns_data : DataFrame R) (w : Vector) :
  (2 <= length (values returns_data))%nat ->
  length w = length (columns returns_data) ->
  exists v, objective (sample_cov returns_data) w = Some v /\ 0 <= v.
Proof.
  intros HT Hlen. unfold sample_cov. rewrite cov_transpose by exact HT.
  cbn [objective]. eexists; split; [reflexivity|].
  rewrite (quadratic_form _ _ _ Hlen).
  apply Rmult_le_pos.
  - apply sum_nonneg, Forall_forall. intros y Hy.
    apply in_map_iff in Hy as (row & <- & _). apply Rle_0_sqr.
  - apply Rlt_le, Rinv_0_lt_compat, T_minus_1_pos, HT.
Qed.

Lemma sample_objective_nonnegative_witness :
  (2 <= length (values series_a))%nat /\
  length [3 / 4; 1 / 4] = length (columns series_a) /\
  exists v, objective (sample_cov series_a) [3 / 4; 1 / 4] = Some v /\ 0 <= v.
Proof.
  assert (HT : (2 <= length (values series_a))%nat) by (simpl; lia).
  assert (Hlen : length [3 / 4; 1 / 4] = length (columns series_a)) by reflexivity.
  split; [exact HT|]. split; [exact Hlen|].
  exact (sample_objective_nonnegative series_a _ HT Hlen).
Defined.

(** X11: what the solver minimises is the in-sample variance: over at
    least two dates, the objective at a weight vector equals the variance
    ([Series.var()]) of the portfolio returns that [main] realises with
    these weights. *)
Theorem objective_is_realised_variance (returns_data : DataFrame R) (w : Vector) :
  (2 <= length (values returns_data))%nat ->
  length w = length (columns returns_data) ->
  objective (sample_cov returns_data) w = pd.var (portfolio_returns returns_data w).
Proof.
  destruct returns_data as [cols rows]. unfold sample_cov, portfolio_returns.
  cbn [columns values]. generalize (length cols). clear cols.
  intros n HT Hlen. rewrite cov_transpose by exact HT.
  cbn [objective]. rewrite (quadratic_form _ _ _ Hlen).
  assert (Hp : forall row, np.sum (weighted row w)
                = np.sum (map (fun j => nth j row 0 * nth j w 0) (seq 0 n))).
  { intro row. now rewrite sum_weighted, (dot_nth n _ _ Hlen). }
  assert (HTp : (2 <= length (map (fun row => np.sum (weighted row w)) rows))%nat)
    by now rewrite length_map.
  destruct (var_defined _ HTp) as (m & v & Hm & Hv & Hval).
  rewrite Hv. f_equal. rewrite Hval, length_map, map_map.
  assert (Tpos : 0 < INR (length rows)) by (apply lt_0_INR; lia).
  assert (Em : m = np.sum (map (fun j => Spec.column_mean rows j * nth j w 0) (seq 0 n))).
  { rewrite mean_defined in Hm
      by (intro E; apply map_eq_nil in E; rewrite E in HT; simpl in HT; lia).
    injection Hm as <-. rewrite length_map.
    rewrite (sum_ext_in (fun row => np.sum (weighted row w))
               (fun row => np.sum (map (fun j => nth j row 0 * nth j w 0) (seq 0 n))))
      by (intros; apply Hp).
    rewrite sum_swap, <- sum_div. apply sum_ext_in. intros j _.
    unfold Spec.column_mean.
    rewrite (sum_scal_r (nth j w 0) (fun row => nth j row 0)).
    unfold Rdiv. rewrite !Rmult_assoc. f_equal. apply Rmult_comm. }
  f_equal. apply sum_ext_in. intros row _.
  assert (Eq : np.sum (weighted row w) - m
          = np.sum (map (fun j => (nth j row 0 - Spec.column_mean rows j) * nth j w 0)
                        (seq 0 n))).
  { rewrite Hp, Em, <- sum_map_minus. apply sum_ext_in. intros j _. ring. }
  now rewrite Eq.
Qed.

Lemma objective_is_realised_variance_witness :
  (2 <= length (values series_a))%nat /\
  length [3 / 4; 1 / 4] = length (columns series_a) /\
  objective (sample_cov series_a) [3 / 4; 1 / 4]
  = pd.var (portfolio_returns series_a [3 / 4; 1 / 4]).
Proof.
  assert (HT : (2 <= length (values series_a))%nat) by (simpl; lia).
  assert (Hlen : length [3 / 4; 1 / 4] = length (columns series_a)) by reflexivity.
  split; [exact HT|]. split; [exact Hlen|].
  exact (objective_is_realised_variance series_a _ HT Hlen).
Defined.

Lemma weighted_repeat (c : R) (row : Vector) :
  np.sum (weighted row (repeat c (length row))) = c * np.sum row.
Proof.
  induction row as [|a row IH]; [cbn; ring|].
  cbn [length repeat weighted np.sum fold_right].
  fold (np.sum (weighted row (repeat c (length row)))) (np.sum row).
  rewrite IH. ring.
Qed.

(** X12: on the fallback path the return realised at each date is the
    plain average of the tickers' returns at that date. *)
Theorem fallback_realises_the_average (minimize : Minimizer) (c : Constraints)
    (returns_data : DataFrame R) (cov : option Matrix) (w : Vector) :
  Forall (fun row => length row = length (columns returns_data)) (values returns_data) ->
  solve_optimization minimize c (length (columns returns_data)) cov = Ok w ->
  success (minimize_result minimize c (length (columns returns_data)) cov) = false ->
  portfolio_returns returns_data w
  = map (fun row => np.sum row / INR (length (columns returns_data)))
        (values returns_data).
Proof.
  intros Hwf Hw Hfail. apply solve_optimization_cases in Hw as [Hn Hw].
  rewrite Hfail in Hw. subst w. unfold portfolio_returns, initial_weights.
  apply map_ext_in. intros row Hrow.
  rewrite Forall_forall in Hwf. rewrite <- (Hwf row Hrow).
  rewrite weighted_repeat. unfold Rdiv. ring.
Qed.

Lemma fallback_realises_the_average_witness :
  Forall (fun row => length row = length (columns series_a)) (values series_a) /\
  solve_optimization non_converging unit_box (length (columns series_a)) None
    = Ok (initial_weights 2) /\
  portfolio_returns series_a (initial_weights 2)
  = map (fun row => np.sum row / INR (length (columns series_a))) (values series_a).
Proof.
  assert (Hwf : Forall (fun row => length row = length (columns series_a))
                       (values series_a))
    by (repeat constructor).
  assert (Hw : solve_optimization non_converging unit_box (length (columns series_a)) None
               = Ok (initial_weights 2)) by reflexivity.
  split; [exact Hwf|]. split; [exact Hw|].
  exact (fallback_realises_the_average non_converging unit_box series_a None _
           Hwf Hw eq_refl).
Defined.

Lemma weighted_between (lo hi : R) (row w : Vector) :
  length row = length w ->
  Forall (fun a => lo <= a <= hi) row ->
  Forall (fun b => 0 <= b) w ->
  lo * np.sum w <= np.sum (weighted row w) <= hi * np.sum w.
Proof.
  revert w; induction row as [|a row IH]; intros [|b w] Hlen Hrow Hw;
    try discriminate.
  - cbn; lra.
  - injection Hlen as Hlen. inversion Hrow as [|? ? Ha Hrow']; subst.
    inversion Hw as [|? ? Hb Hw']; subst.
    specialize (IH w Hlen Hrow' Hw').
    cbn [weighted np.sum fold_right].
    fold (np.sum (weighted row w)) (np.sum w). nra.
Qed.

(** X13: with long-only weights that sum to 1, the return realised at a
    date lies between the smallest and the largest ticker return of that
    date: if every cell of the frame is in [lo, hi], so is every portfolio
    return. *)
Theorem long_only_returns_are_averages (returns_data : DataFrame R) (w : Vector)
    (lo hi : R) :
  Forall (fun row => length row = length w) (values returns_data) ->
  Forall (fun row => Forall (fun a => lo <= a <= hi) row) (values returns_data) ->
  Forall (fun b => 0 <= b) w ->
  np.sum w = 1 ->
  Forall (fun p => lo <= p <= hi) (portfolio_returns returns_data w).
Proof.
  intros Hwf Hbox Hw Hsum. unfold portfolio_returns.
  apply Forall_forall. intros p Hp.
  apply in_map_iff in Hp as (row & <- & Hrow).
  rewrite Forall_forall in Hwf, Hbox.
  pose proof (weighted_between lo hi row w (Hwf row Hrow) (Hbox row Hrow) Hw) as H.
  rewrite Hsum in H. lra.
Qed.

Lemma long_only_returns_are_averages_witness :
  Forall (fun row => length row = length [3 / 4; 1 / 4]%R) (values series_a) /\
  Forall (fun row => Forall (fun a => 0 <= a <= 3 / 100) row) (values series_a) /\
  Forall (fun b => 0 <= b) [3 / 4; 1 / 4] /\
  np.sum [3 / 4; 1 / 4] = 1 /\
  Forall (fun p => 0 <= p <= 3 / 100) (portfolio_returns series_a [3 / 4; 1 / 4]).
Proof.
  assert (Hwf : Forall (fun row => length row = length [3 / 4; 1 / 4]%R) (values series_a))
    by (repeat constructor).
  assert (Hbox : Forall (fun row => Forall (fun a => 0 <= a <= 3 / 100) row)
                        (values series_a)).
  { cbn. repeat (apply Forall_cons || apply Forall_nil); lra. }
  assert (Hw : Forall (fun b => 0 <= b) [3 / 4; 1 / 4]).
  { repeat (apply Forall_cons || apply Forall_nil); lra. }
  assert (Hsum : np.sum [3 / 4; 1 / 4] = 1) by (cbn; lra).
  split; [exact Hwf|]. split; [exact Hbox|]. split; [exact Hw|]. split; [exact Hsum|].
  exact (long_only_returns_are_averages series_a _ 0 (3 / 100) Hwf Hbox Hw Hsum).
Defined.

(** ** The dual optimisation as a whole *)

Section Dual.

Variable minimize : Minimizer.
Hypothesis contract : slsqp_contract minimize.
Variable ledoit_wolf : Shrinkage.




End Dual.



(** ** Cleaning by [dropna()] *)

Lemma complete_row_some (row : list float) (r : list R) :
  pd.complete_row row = Some r -> row = map Some r /\ no_missing row = true.
Proof.
  revert r; induction row as [|[a|] row IH]; intros r H; cbn in H.
  - injection H as <-. now split.
  - destruct (pd.complete_row row) as [r'|]; [|discriminate].
    injection H as <-. destruct (IH r' eq_refl) as [-> Hn]. now split.
  - discriminate.
Qed.

Lemma complete_row_none (row : list float) :
  pd.complete_row row = None -> no_missing row = false.
Proof.
  induction row as [|[a|] row IH]; cbn; intro H.
  - discriminate.
  - destruct (pd.complete_row row); [discriminate | now apply IH].
  - reflexivity.
Qed.

(** X16: [dropna()] keeps exactly the dates without a missing cell, in
    their order and with their values, and keeps every column. *)
Theorem dropna_keeps_complete_dates (df : DataFrame float) :
  columns (pd.dropna df) = columns df /\
  map (map Some) (values (pd.dropna df)) = filter no_missing (values df).
Proof.
  split; [reflexivity|]. cbn [pd.dropna values].
  induction (values df) as [|row rows IH]; [reflexivity|].
  cbn [pd.dropna_rows filter].
  destruct (pd.complete_row row) as [r|] eqn:Hr.
  - destruct (complete_row_some _ _ Hr) as [-> Hn]. rewrite Hn.
    cbn [map]. now rewrite IH.
  - now rewrite (complete_row_none _ Hr).
Qed.

Lemma complete_row_map_some (r : list R) : pd.complete_row (map Some r) = Some r.
Proof.
  induction r as [|a r IH]; [reflexivity|]. cbn. now rewrite IH.
Qed.

(** X17: a frame without missing values goes through [dropna()]
    unchanged. *)
Theorem dropna_of_clean_frame (cols : list string) (m : Matrix) :
  pd.dropna (mkDataFrame cols (map (map Some) m)) = mkDataFrame cols m.
Proof.
  unfold pd.dropna. cbn [columns values]. f_equal.
  induction m as [|r m IH]; [reflexivity|].
  cbn [map pd.dropna_rows]. now rewrite complete_row_map_some, IH.
Qed.

Lemma complete_row_missing (row : list float) (j : nat) :
  nth_error row j = Some None -> pd.complete_row row = None.
Proof.
  revert j; induction row as [|[a|] row IH]; intros j H.
  - destruct j; discriminate.
  - destruct j as [|j]; [discriminate|]. cbn in H. cbn.
    now rewrite (IH j H).
  - reflexivity.
Qed.

(** X18: one ticker without data empties the sample: when a column is
    missing at every date, [dropna()] leaves no date; with at least one
    column the sample covariance is then NaN and so is the objective at
    every weight vector. *)
Theorem empty_ticker_empties_sample (df : DataFrame float) (j : nat) :
  (forall row, In row (values df) -> nth_error row j = Some None) ->
  values (pd.dropna df) = [] /\
  (columns df <> [] -> forall w, objective (sample_cov (pd.dropna df)) w = nan).
Proof.
  intro Hmiss.
  assert (Hrows : pd.dropna_rows (values df) = []).
  { induction (values df) as [|row rows IH]; [reflexivity|].
    cbn [pd.dropna_rows].
    rewrite (complete_row_missing row j) by (apply Hmiss; now left).
    apply IH. intros r Hr. apply Hmiss. now right. }
  split; [exact Hrows|].
  intros Hne w. unfold sample_cov, pd.dropna. cbn [columns values].
  rewrite Hrows. destruct (columns df) as [|c cols]; [contradiction|].
  reflexivity.
Qed.

Lemma empty_ticker_empties_sample_witness :
  (forall row, In row [[Some (1 / 100); None]; [Some (2 / 100); None]] ->
               nth_error row 1 = Some None) /\
  values (pd.dropna (mkDataFrame ["AAA"%string; "BBB"%string]
                       [[Some (1 / 100); None]; [Some (2 / 100); None]])) = [].
Proof.
  assert (H : forall row, In row [[Some (1 / 100); None]; [Some (2 / 100); None]] ->
                          nth_error row 1 = Some None).
  { intros row [<-|[<-|[]]]; reflexivity. }
  split; [exact H|].
  exact (proj1 (empty_ticker_empties_sample
                  (mkDataFrame ["AAA"%string; "BBB"%string]
                     [[Some (1 / 100); None]; [Some (2 / 100); None]]) 1 H)).
Defined.

(** ** The winner reports *)

Lemma improvement_nonzero_divisor (a b : number) (u y : R) :
  value a = Some u -> value b = Some y -> y <> 0 ->
  improvement_over a b = Ok (fin (Some ((u - y) / y * 100))).
Proof.
  intros Ha Hb Hy. unfold improvement_over, true_divide, subtract, np_divide.
  cbn [value numtype_of]. rewrite Ha, Hb. cbn [fsub lift2 fdiv].
  destruct (result_type _ _); destruct (Req_dec_T y 0); try contradiction; reflexivity.
Qed.

Lemma positive_over_numpy_zero (a b : number) (u : R) :
  numtype_of a = numpy_float64 ->
  value a = Some u -> value b = Some 0 -> 0 < u ->
  improvement_over a b = Ok pos_inf.
Proof.
  intros Hty Ha Hb Hu. unfold improvement_over, true_divide, subtract, np_divide.
  cbn [value numtype_of]. rewrite Hty, Ha, Hb. cbn [result_type fsub lift2].
  destruct (Req_dec_T 0 0) as [_|]; [|contradiction].
  destruct (Rlt_dec 0 (u - 0)); [reflexivity | lra].
Qed.

Lemma sortino_sample_sharpe_positive :
  exists s, sharpe_ratio (calc_metrics sortino_sample) = Some s /\ 0 < s.
Proof.
  destruct (var_defined sortino_sample) as (m & v & Hm & Hv & Hval); [simpl; lia|].
  assert (Em : m = 2 / 100) by (cbn in Hm; injection Hm as <-; lra).
  assert (Ev : v = 74 / 30000) by (rewrite Hval, Em; cbn; lra).
  rewrite (sharpe_value _ _ _ Hm Hv).
  assert (Hpos : 0 < sqrt v * sqrt 12).
  { apply Rmult_lt_0_compat; [apply sqrt_lt_R0; lra | apply sqrt_12_pos]. }
  destruct (Rlt_dec 0 (sqrt v * sqrt 12)); [|contradiction].
  eexists; split; [reflexivity|]. apply Rdiv_lt_0_compat; lra.
Qed.

(** X19: the guard of run_test.py covers the second branch only.  When
    the sample Sharpe ratio is 0 and the Ledoit-Wolf one is greater, the
    first branch divides by zero: between two Python numbers the analysis
    of run_test.py raises [ZeroDivisionError]; on the metrics of
    [calc_metrics], where a Sharpe ratio other than 0 is a NumPy scalar,
    the division yields +inf, in the demo and in the guarded analysis
    alike, and the run goes on. *)
Theorem first_branch_is_unguarded :
  (forall sample_sharpe lw_sharpe : number,
     numtype_of sample_sharpe = python_number ->
     numtype_of lw_sharpe = python_number ->
     value sample_sharpe = Some 0 ->
     fgt (value lw_sharpe) (value sample_sharpe) = true ->
     winner_analysis sample_sharpe lw_sharpe = Raise ZeroDivisionError) /\
  (forall sample_returns lw_returns : list R,
     sharpe_ratio (calc_metrics sample_returns) = Some 0 ->
     fgt (sharpe_ratio (calc_metrics lw_returns))
         (sharpe_ratio (calc_metrics sample_returns)) = true ->
     winner_determination (calc_metrics sample_returns) (calc_metrics lw_returns)
       = Ok (LedoitWolf, pos_inf) /\
     winner_analysis (sharpe_number (calc_metrics sample_returns))
                     (sharpe_number (calc_metrics lw_returns))
       = Ok (LedoitWolf, pos_inf)).
Proof.
  split.
  - intros s l Hs Hl Hz Hgt. unfold winner_analysis. rewrite Hgt.
    now rewrite (zero_divisor_python l s Hl Hs Hz).
  - intros rs rl Hz Hgt.
    destruct (sharpe_ratio (calc_metrics rl)) as [l|] eqn:El; [|discriminate Hgt].
    assert (Hl : 0 < l).
    { rewrite Hz in Hgt. unfold fgt in Hgt.
      destruct (Rlt_dec 0 l); [assumption | discriminate]. }
    assert (Hty : sharpe_type (calc_metrics rl) = numpy_float64)
      by (apply (sharpe_type_nonzero rl l El); lra).
    assert (Hi : improvement_over (sharpe_number (calc_metrics rl))
                                  (sharpe_number (calc_metrics rs)) = Ok pos_inf)
      by (apply (positive_over_numpy_zero _ _ l); assumption).
    unfold winner_determination, winner_analysis. cbn [sharpe_number value].
    rewrite El, Hz. rewrite Hz in Hgt. rewrite Hgt, Hi. now split.
Qed.

Lemma first_branch_is_unguarded_witness :
  winner_analysis (mkNumber (Some 0) python_number) (mkNumber (Some 1) python_number)
    = Raise ZeroDivisionError /\
  sharpe_ratio (calc_metrics [1 / 100]) = Some 0 /\
  fgt (sharpe_ratio (calc_metrics sortino_sample))
      (sharpe_ratio (calc_metrics [1 / 100])) = true /\
  winner_determination (calc_metrics [1 / 100]) (calc_metrics sortino_sample)
    = Ok (LedoitWolf, pos_inf).
Proof.
  assert (Hz : sharpe_ratio (calc_metrics [1 / 100]) = Some 0)
    by (apply sharpe_short_series; simpl; lia).
  assert (Hgt : fgt (sharpe_ratio (calc_metrics sortino_sample))
                    (sharpe_ratio (calc_metrics [1 / 100])) = true).
  { destruct sortino_sample_sharpe_positive as (s & Hs & Hpos).
    rewrite Hs, Hz. cbn. destruct (Rlt_dec 0 s); [reflexivity | contradiction]. }
  assert (Hpy : fgt (value (mkNumber (Some 1) python_number))
                    (value (mkNumber (Some 0) python_number)) = true).
  { cbn. destruct (Rlt_dec 0 1); [reflexivity | lra]. }
  split.
  - exact (proj1 first_branch_is_unguarded
                  (mkNumber (Some 0) python_number) (mkNumber (Some 1) python_number)
                  eq_refl eq_refl eq_refl Hpy).
  - split; [exact Hz|]. split; [exact Hgt|].
    exact (proj1 (proj2 first_branch_is_unguarded _ _ Hz Hgt)).
Defined.

(** X20: the demo's determination and run_test.py's analysis give the same
    outcome whenever the Ledoit-Wolf Sharpe ratio is not 0 or is the
    greater one: the guard changes nothing else. *)
Theorem analyses_agree_off_zero (sample lw : Metrics) :
  fne (sharpe_ratio lw) (Some 0) = true \/
  fgt (sharpe_ratio lw) (sharpe_ratio sample) = true ->
  winner_analysis (sharpe_number sample) (sharpe_number lw)
  = winner_determination sample lw.
Proof.
  intro H. unfold winner_analysis, winner_determination. cbn [sharpe_number value].
  destruct (fgt (sharpe_ratio lw) (sharpe_ratio sample)); [reflexivity|].
  destruct H as [H|H]; [now rewrite H | discriminate].
Qed.

Lemma analyses_agree_off_zero_witness :
  (fne (sharpe_ratio (calc_metrics sortino_sample)) (Some 0) = true \/
   fgt (sharpe_ratio (calc_metrics sortino_sample))
       (sharpe_ratio (calc_metrics [1 / 100])) = true) /\
  winner_analysis (sharpe_number (calc_metrics [1 / 100]))
                  (sharpe_number (calc_metrics sortino_sample))
  = winner_determination (calc_metrics [1 / 100]) (calc_metrics sortino_sample).
Proof.
  assert (H : fne (sharpe_ratio (calc_metrics sortino_sample)) (Some 0) = true \/
              fgt (sharpe_ratio (calc_metrics sortino_sample))
                  (sharpe_ratio (calc_metrics [1 / 100])) = true).
  { left. destruct sortino_sample_sharpe_positive as (s & Hs & Hpos). rewrite Hs.
    unfold fne. destruct (Req_dec_T s 0); [lra | reflexivity]. }
  split; [exact H|]. exact (analyses_agree_off_zero _ _ H).
Defined.

(** X21: the printed improvement takes the sign of the loser's Sharpe
    ratio: when Ledoit-Wolf wins over a sample Sharpe ratio s <> 0 the
    improvement is (lw - s) / s x 100, positive for s > 0 and negative for
    s < 0. *)
Theorem improvement_has_sign_of_loser (sample lw : Metrics) (s l : R) :
  sharpe_ratio sample = Some s ->
  sharpe_ratio lw = Some l ->
  s < l -> s <> 0 ->
  winner_determination sample lw = Ok (LedoitWolf, fin (Some ((l - s) / s * 100))) /\
  (0 < s -> 0 < (l - s) / s * 100) /\
  (s < 0 -> (l - s) / s * 100 < 0).
Proof.
  intros Hs Hl Hlt Hnz. unfold winner_determination. rewrite Hs, Hl.
  cbn [fgt]. destruct (Rlt_dec s l) as [_|]; [|contradiction].
  rewrite (improvement_nonzero_divisor (sharpe_number lw) (sharpe_number sample) l s
             Hl Hs Hnz).
  split; [reflexivity|]. split; intro Hsgn.
  - apply Rmult_lt_0_compat; [|lra]. apply Rdiv_lt_0_compat; lra.
  - assert (0 < (l - s) / - s) by (apply Rdiv_lt_0_compat; lra).
    replace ((l - s) / s) with (- ((l - s) / - s)) by (field; lra). lra.
Qed.

Lemma improvement_has_sign_of_loser_witness :
  sharpe_ratio (mkMetrics (Some 0) (Some 1) (Some (- (1 / 2))) (Some 0) numpy_float64)
    = Some (- (1 / 2)) /\
  sharpe_ratio (mkMetrics (Some 0) (Some 1) (Some (1 / 2)) (Some 0) numpy_float64)
    = Some (1 / 2) /\
  - (1 / 2) < 1 / 2 /\ - (1 / 2) <> 0 /\
  winner_determination
    (mkMetrics (Some 0) (Some 1) (Some (- (1 / 2))) (Some 0) numpy_float64)
    (mkMetrics (Some 0) (Some 1) (Some (1 / 2)) (Some 0) numpy_float64)
  = Ok (LedoitWolf, fin (Some ((1 / 2 - - (1 / 2)) / - (1 / 2) * 100))).
Proof.
  assert (Hlt : - (1 / 2) < 1 / 2) by lra.
  assert (Hnz : - (1 / 2) <> 0) by lra.
  split; [reflexivity|]. split; [reflexivity|]. split; [exact Hlt|]. split; [exact Hnz|].
  exact (proj1 (improvement_has_sign_of_loser
                  (mkMetrics (Some 0) (Some 1) (Some (- (1 / 2))) (Some 0) numpy_float64)
                  (mkMetrics (Some 0) (Some 1) (Some (1 / 2)) (Some 0) numpy_float64)
                  _ _ eq_refl eq_refl Hlt Hnz)).
Defined.

(** X22: whenever the demo's determination returns, the simplified demo
    and run_test.py name the same winner; a tie goes to the sample
    covariance. *)
Theorem winners_agree (sample lw : Metrics) (who : method) (improvement : extended) :
  winner_determination sample lw = Ok (who, improvement) ->
  winner_only (sharpe_ratio sample) (sharpe_ratio lw) = who /\
  (exists i, winner_analysis (sharpe_number sample) (sharpe_number lw) = Ok (who, i)) /\
  (sharpe_ratio sample = sharpe_ratio lw -> who = Sample).
Proof.
  unfold winner_determination, winner_only, winner_analysis. cbn [sharpe_number value].
  destruct (fgt (sharpe_ratio lw) (sharpe_ratio sample)) eqn:Hgt.
  - destruct (improvement_over _ _) as [q|e]; [|discriminate].
    intro H; injection H as <- _. split; [reflexivity|].
    split; [eexists; reflexivity|].
    intro E. rewrite E in Hgt. exfalso.
    unfold fgt in Hgt. destruct (sharpe_ratio lw) as [v|]; [|discriminate].
    destruct (Rlt_dec v v); [lra | discriminate].
  - destruct (improvement_over _ _) as [q|e]; [|discriminate].
    intro H; injection H as <- _. split; [reflexivity|].
    split; [|reflexivity].
    destruct (fne (sharpe_ratio lw) (Some 0)); eexists; reflexivity.
Qed.

Lemma winners_agree_witness :
  winner_determination
    (mkMetrics (Some 0) (Some 1) (Some (- (1 / 2))) (Some 0) numpy_float64)
    (mkMetrics (Some 0) (Some 1) (Some (1 / 2)) (Some 0) numpy_float64)
  = Ok (LedoitWolf, fin (Some ((1 / 2 - - (1 / 2)) / - (1 / 2) * 100))) /\
  winner_only (Some (- (1 / 2))) (Some (1 / 2)) = LedoitWolf.
Proof.
  assert (H : winner_determination
                (mkMetrics (Some 0) (Some 1) (Some (- (1 / 2))) (Some 0) numpy_float64)
                (mkMetrics (Some 0) (Some 1) (Some (1 / 2)) (Some 0) numpy_float64)
              = Ok (LedoitWolf, fin (Some ((1 / 2 - - (1 / 2)) / - (1 / 2) * 100)))).
  { assert (Hlt : - (1 / 2) < 1 / 2) by lra.
    assert (Hnz : - (1 / 2) <> 0) by lra.
    unfold winner_determination, sharpe_number. cbn [sharpe_ratio sharpe_type fgt].
    destruct (Rlt_dec (- (1 / 2)) (1 / 2)); [|contradiction].
    now rewrite (improvement_nonzero_divisor
                   (mkNumber (Some (1 / 2)) numpy_float64)
                   (mkNumber (Some (- (1 / 2))) numpy_float64)
                   (1 / 2) (- (1 / 2)) eq_refl eq_refl Hnz). }
  split; [exact H|]. exact (proj1 (winners_agree _ _ _ _ H)).
Defined.

(** ** The data file and the sector groups *)

Lemma first_existing_spec (path_exists : string -> bool) (paths : list string) :
  match first_existing path_exists paths with
  | None => forall p, In p paths -> path_exists p = false
  | Some p =>
      path_exists p = true /\
      exists before after,
        paths = before ++ p :: after /\
        forall q, In q before -> path_exists q = false
  end.
Proof.
  induction paths as [|path paths IH]; cbn [first_existing].
  - intros p [].
  - destruct (path_exists path) eqn:He.
    + split; [exact He|]. exists [], paths. split; [reflexivity | intros q []].
    + destruct (first_existing path_exists paths) as [p|].
      * destruct IH as [Hp (before & after & -> & Hb)].
        split; [exact Hp|]. exists (path :: before), after.
        split; [reflexivity|]. intros q [<-|Hq]; [exact He | now apply Hb].
      * intros p [<-|Hp]; [exact He | now apply IH].
Qed.

(** X23: the demo loads the first candidate file that exists, in the
    listed order of preference, and finds none exactly when no candidate
    exists. *)
Theorem data_file_is_first_existing (path_exists : string -> bool) :
  (find_data_file path_exists = None <->
   forall p, In p possible_data_paths -> path_exists p = false) /\
  (forall p, find_data_file path_exists = Some p ->
     path_exists p = true /\
     exists before after,
       possible_data_paths = before ++ p :: after /\
       forall q, In q before -> path_exists q = false).
Proof.
  unfold find_data_file.
  pose proof (first_existing_spec path_exists possible_data_paths) as H.
  destruct (first_existing path_exists possible_data_paths) as [p|].
  - destruct H as [Hp Hsplit]. split.
    + split; [discriminate|]. intro Hnone. exfalso.
      destruct Hsplit as (before & after & E & _).
      rewrite Hnone in Hp; [discriminate|].
      rewrite E. apply in_or_app. right; now left.
    + intros p' E. injection E as <-. now split.
  - split; [now split | discriminate].
Qed.

Lemma slice_append {A : Type} (lo hi : nat) (l : list A) :
  (lo <= hi)%nat -> slice lo hi l ++ skipn hi l = skipn lo l.
Proof.
  intro H. unfold slice.
  rewrite <- (firstn_skipn (hi - lo) (skipn lo l)) at 2.
  rewrite skipn_skipn. replace (hi - lo + lo)%nat with hi by lia. reflexivity.
Qed.

(** X24: the six groups printed by the assignment demo split the ticker
    list in order, without loss or repetition, whatever its length; with
    19 tickers or more the first five groups hold 5, 4, 3, 4 and 3 tickers
    and the last one all the others. *)
Theorem sector_groups_partition (default_tickers : list string) :
  concat (sector_groups default_tickers) = default_tickers /\
  ((19 <= length default_tickers)%nat ->
   map (@length string) (sector_groups default_tickers)
   = [5; 4; 3; 4; 3; length default_tickers - 19]%nat).
Proof.
  split.
  - unfold sector_groups, slice_from. cbn [concat]. rewrite app_nil_r.
    rewrite (slice_append 16 19) by lia. rewrite (slice_append 12 16) by lia.
    rewrite (slice_append 9 12) by lia. rewrite (slice_append 5 9) by lia.
    rewrite (slice_append 0 5) by lia. reflexivity.
  - intro Hlen. unfold sector_groups, slice, slice_from. cbn [map].
    rewrite !length_firstn, !length_skipn.
    repeat f_equal; lia.
Qed.

Lemma sector_groups_partition_witness :
  (19 <= length Download.sp500_fallback)%nat /\
  map (@length string) (sector_groups Download.sp500_fallback)
  = [5; 4; 3; 4; 3; length Download.sp500_fallback - 19]%nat.
Proof.
  assert (H : (19 <= length Download.sp500_fallback)%nat) by (cbn; lia).
  split; [exact H|]. exact (proj2 (sector_groups_partition _) H).
Defined.

(** ** The download scripts *)

Lemma nodup_fixed_is_NoDup (l : list string) : nodup string_dec l = l -> NoDup l.
Proof.
  intro H. rewrite <- H. apply NoDup_nodup.
Qed.

Lemma manual_nasdaq_distinct : NoDup Download.manual_nasdaq.
Proof. apply nodup_fixed_is_NoDup. vm_compute. reflexivity. Qed.

Lemma top_etfs_distinct : NoDup Download.top_etfs.
Proof. apply nodup_fixed_is_NoDup. vm_compute. reflexivity. Qed.

Lemma nodup_is_set_order : Download.set_order (nodup string_dec).
Proof.
  intro l. split; [apply NoDup_nodup | intro t; apply nodup_In].
Qed.

Section SetOrder.

Variable list_set : Download.SetOrder.
Hypothesis list_set_ok : Download.set_order list_set.

(** X25: whatever the database answers, [get_nasdaq_tickers] returns at
    least 40 tickers; when the query returns fewer than 100 the result has
    no duplicate and holds exactly the query's tickers and the 40 manual
    ones. *)
Theorem nasdaq_tickers_floor (query : option (list string)) :
  (40 <= length (Download.get_nasdaq_tickers list_set query))%nat /\
  (forall tickers, query = Some tickers -> (length tickers < 100)%nat ->
     NoDup (Download.get_nasdaq_tickers list_set query) /\
     forall t, In t (Download.get_nasdaq_tickers list_set query)
               <-> In t tickers \/ In t Download.manual_nasdaq).
Proof.
  split.
  - destruct query as [tickers|]; cbn [Download.get_nasdaq_tickers].
    + destruct (Nat.ltb_spec (length tickers) 100) as [Hlt|Hge]; [|lia].
      change 40%nat with (length Download.manual_nasdaq).
      apply NoDup_incl_length; [apply manual_nasdaq_distinct|].
      intros t Ht. apply (proj2 (list_set_ok _)), in_or_app. now right.
    + cbn. lia.
  - intros tickers -> Hlt. cbn [Download.get_nasdaq_tickers].
    destruct (Nat.ltb_spec (length tickers) 100) as [_|Hge]; [|lia].
    split; [apply (proj1 (list_set_ok _))|].
    intro t. rewrite (proj2 (list_set_ok _)). apply in_app_iff.
Qed.

(** X26: the universe to download has no duplicate, holds every S&P 500
    and NASDAQ ticker obtained and all 90 ETFs, hence at least 90 tickers,
    whatever the two queries return. *)
Theorem download_universe (sp500_query nasdaq_query : option (list string)) :
  let universe :=
    Download.all_tickers list_set
      (Download.get_sp500_tickers sp500_query)
      (Download.get_nasdaq_tickers list_set nasdaq_query)
      Download.top_etfs in
  NoDup universe /\
  incl (Download.get_sp500_tickers sp500_query) universe /\
  incl (Download.get_nasdaq_tickers list_set nasdaq_query) universe /\
  incl Download.top_etfs universe /\
  (90 <= length universe)%nat.
Proof.
  cbv zeta. unfold Download.all_tickers.
  set (sp := Download.get_sp500_tickers sp500_query).
  set (nq := Download.get_nasdaq_tickers list_set nasdaq_query).
  destruct (list_set_ok (sp ++ nq ++ Download.top_etfs)) as [Hnd Hin].
  assert (Hetf : incl Download.top_etfs (list_set (sp ++ nq ++ Download.top_etfs))).
  { intros t Ht. apply Hin, in_or_app. right. apply in_or_app. now right. }
  split; [exact Hnd|]. split; [|split; [|split; [exact Hetf|]]].
  - intros t Ht. apply Hin, in_or_app. now left.
  - intros t Ht. apply Hin, in_or_app. right. apply in_or_app. now left.
  - change 90%nat with (length Download.top_etfs).
    apply NoDup_incl_length; [apply top_etfs_distinct | exact Hetf].
Qed.

End SetOrder.

Lemma nasdaq_tickers_floor_witness :
  Download.set_order (nodup string_dec) /\
  (40 <= length (Download.get_nasdaq_tickers (nodup string_dec)
                   (Some ["AAPL"%string; "ZM"%string; "AAPL"%string])))%nat.
Proof.
  split; [exact nodup_is_set_order|].
  exact (proj1 (nasdaq_tickers_floor _ nodup_is_set_order _)).
Defined.

Lemma download_universe_witness :
  Download.set_order (nodup string_dec) /\
  NoDup (Download.all_tickers (nodup string_dec)
           (Download.get_sp500_tickers None)
           (Download.get_nasdaq_tickers (nodup string_dec) None)
           Download.top_etfs).
Proof.
  split; [exact nodup_is_set_order|].
  exact (proj1 (download_universe _ nodup_is_set_order None None)).
Defined.

Lemma key_eqb_eq (a b : nat * string) : Download.key_eqb a b = true <-> a = b.
Proof.
  destruct a as [d t], b as [d' t']. unfold Download.key_eqb. cbn [fst snd].
  rewrite andb_true_iff, Nat.eqb_eq, String.eqb_eq.
  split; [intros [-> ->]; reflexivity | intro H; now injection H].
Qed.

Lemma seen_spec (seen : list (nat * string)) (k : nat * string) :
  existsb (Download.key_eqb k) seen = true <-> In k seen.
Proof.
  rewrite existsb_exists. split.
  - intros (k' & Hin & E). apply key_eqb_eq in E. now subst.
  - intro Hin. exists k. split; [exact Hin | now apply key_eqb_eq].
Qed.

Lemma drop_duplicates_seen_keys (rows : list Download.Observation)
    (seen : list (nat * string)) :
  NoDup (map Download.key (Download.drop_duplicates_seen seen rows)) /\
  (forall o, In o (Download.drop_duplicates_seen seen rows) ->
             In o rows /\ ~ In (Download.key o) seen).
Proof.
  revert seen; induction rows as [|o rows IH]; intro seen.
  - split; [constructor | intros o []].
  - cbn [Download.drop_duplicates_seen].
    destruct (existsb (Download.key_eqb (Download.key o)) seen) eqn:Hseen.
    + destruct (IH seen) as [Hnd Hin]. split; [exact Hnd|].
      intros o' Ho'. destruct (Hin o' Ho'). split; [now right | assumption].
    + destruct (IH (Download.key o :: seen)) as [Hnd Hin]. split.
      * cbn [map]. constructor; [|exact Hnd].
        intro Hk. apply in_map_iff in Hk as (o' & E & Ho').
        destruct (Hin o' Ho') as [_ Hns]. apply Hns. left. now symmetry.
      * intros o' [<-|Ho'].
        -- split; [now left|]. intro Hk. apply seen_spec in Hk. congruence.
        -- destruct (Hin o' Ho') as [Hr Hns]. split; [now right|].
           intro Hk. apply Hns. now right.
Qed.

Lemma drop_duplicates_seen_find (rows : list Download.Observation)
    (seen : list (nat * string)) (k : nat * string) :
  ~ In k seen ->
  find (fun o => Download.key_eqb (Download.key o) k)
       (Download.drop_duplicates_seen seen rows)
  = find (fun o => Download.key_eqb (Download.key o) k) rows.
Proof.
  revert seen; induction rows as [|o rows IH]; intros seen Hk; [reflexivity|].
  cbn [Download.drop_duplicates_seen find].
  destruct (existsb (Download.key_eqb (Download.key o)) seen) eqn:Hseen.
  - destruct (Download.key_eqb (Download.key o) k) eqn:E.
    + apply key_eqb_eq in E. apply seen_spec in Hseen. congruence.
    + now apply IH.
  - cbn [find]. destruct (Download.key_eqb (Download.key o) k) eqn:E; [reflexivity|].
    apply IH. intros [E'|Hin]; [|contradiction].
    assert (Download.key_eqb (Download.key o) k = true) by now apply key_eqb_eq.
    congruence.
Qed.

(** X27: [drop_duplicates] keeps, for each (date, ticker) pair of the
    input, its first row and only that one: the result has no two rows
    with the same pair, every row of it is an input row, and looking a pair
    up in the result gives the same row as in the input. *)
Theorem drop_duplicates_keeps_first (rows : list Download.Observation) :
  NoDup (map Download.key (Download.drop_duplicates rows)) /\
  incl (Download.drop_duplicates rows) rows /\
  forall k,
    find (fun o => Download.key_eqb (Download.key o) k) (Download.drop_duplicates rows)
    = find (fun o => Download.key_eqb (Download.key o) k) rows.
Proof.
  unfold Download.drop_duplicates.
  destruct (drop_duplicates_seen_keys rows []) as [Hnd Hin].
  split; [exact Hnd|]. split.
  - intros o Ho. now apply Hin.
  - intro k. now apply drop_duplicates_seen_find.
Qed.

Lemma parse_dates_length (to_datetime : string -> option nat)
    (rows : list Download.RawRow) (parsed : list Download.Observation) :
  Download.parse_dates to_datetime rows = Some parsed ->
  length parsed = length rows.
Proof.
  revert parsed; induction rows as [|r rows IH]; intros parsed H; cbn in H.
  - now injection H as <-.
  - destruct (to_datetime (Download.raw_date r)); [|discriminate].
    destruct (Download.parse_dates to_datetime rows) as [os|]; [|discriminate].
    injection H as <-. cbn. now rewrite (IH os eq_refl).
Qed.

(** X28: [fetch_return_data] never returns an empty data set: it returns
    [None] or at least one row; the rows returned have distinct
    (date, ticker) pairs, are no more than the query's rows, and carry the
    placeholders NaN and 'Unknown'. *)
Theorem fetch_returns_none_or_rows (to_datetime : string -> option nat)
    (query : option (list Download.RawRow)) (data : list Download.Enriched) :
  Download.fetch_return_data to_datetime query = Some data ->
  data <> [] /\
  NoDup (map (fun e => Download.key (Download.observation e)) data) /\
  (exists raw, query = Some raw /\ (length data <= length raw)%nat) /\
  Forall (fun e => Download.market_cap e = nan /\
                   Download.sector e = "Unknown"%string) data.
Proof.
  unfold Download.fetch_return_data.
  destruct query as [[|r raw]|]; try discriminate.
  destruct (Download.parse_dates to_datetime (r :: raw)) as [parsed|] eqn:Hp;
    [|discriminate].
  intro H; injection H as <-.
  pose proof (parse_dates_length _ _ _ Hp) as Hlen.
  destruct (drop_duplicates_seen_keys parsed []) as [Hnd Hin].
  assert (Hincl : incl (Download.drop_duplicates parsed) parsed)
    by (intros o Ho; now apply Hin).
  fold (Download.drop_duplicates parsed) in Hnd.
  split; [|split; [|split]].
  - destruct parsed as [|o parsed]; [discriminate Hlen|].
    unfold Download.drop_duplicates. cbn. discriminate.
  - rewrite map_map. cbn [Download.observation]. exact Hnd.
  - exists (r :: raw). split; [reflexivity|].
    rewrite length_map, <- Hlen.
    apply NoDup_incl_length.
    + apply (NoDup_map_inv Download.key), Hnd.
    + exact Hincl.
  - apply Forall_forall. intros e He.
    apply in_map_iff in He as (o & <- & _). now split.
Qed.

Lemma fetch_returns_none_or_rows_witness :
  Download.fetch_return_data (fun _ => Some 0%nat)
    (Some [Download.mkRawRow "2000-01-31" "AAPL" (1 / 100);
           Download.mkRawRow "2000-01-31" "AAPL" (2 / 100)])
  = Some [Download.mkEnriched (Download.mkObservation 0 "AAPL" (1 / 100))
            nan "Unknown"%string] /\
  [Download.mkEnriched (Download.mkObservation 0 "AAPL" (1 / 100)) nan "Unknown"%string]
  <> [].
Proof.
  assert (H : Download.fetch_return_data (fun _ => Some 0%nat)
    (Some [Download.mkRawRow "2000-01-31" "AAPL" (1 / 100);
           Download.mkRawRow "2000-01-31" "AAPL" (2 / 100)])
  = Some [Download.mkEnriched (Download.mkObservation 0 "AAPL" (1 / 100))
            nan "Unknown"%string]) by reflexivity.
  split; [exact H|]. exact (proj1 (fetch_returns_none_or_rows _ _ _ H)).
Defined.

(** ** Date order *)

(** X29: the sample weights do not depend on the order of the dates: for
    two frames with the same columns and the same dates in any order, over
    at least two dates, whenever the dual optimisation returns for one it
    returns for the other with the same sample weights. *)
Theorem weights_ignore_date_order (minimize : Minimizer) (ledoit_wolf : Shrinkage)
    (c : Constraints) (a b : DataFrame R) (ra : DualResult) :
  columns a = columns b ->
  Permutation (values a) (values b) ->
  (2 <= length (values a))%nat ->
  optimize_portfolio_dual_methods minimize ledoit_wolf a c = Ok ra ->
  exists rb,
    optimize_portfolio_dual_methods minimize ledoit_wolf b c = Ok rb /\
    sample_weights rb = sample_weights ra.
Proof.
  intros Hcols Hperm HT Ha.
  destruct (optimize_cases _ _ _ _ _ Ha) as (_ & Hs & _).
  rewrite (sample_weights_ignore_date_order minimize c a b Hcols Hperm HT) in Hs.
  assert (HX : values b <> []).
  { intro E. apply Permutation_length in Hperm. rewrite E in Hperm.
    cbn in Hperm. lia. }
  assert (Hl : exists lw,
             solve_optimization minimize c (length (columns b))
               (covariance_ (ledoit_wolf (values b))) = Ok lw).
  { destruct (solve_optimization_cases _ _ _ _ _ Hs) as [Hn _].
    unfold solve_optimization.
    destruct (length (columns b)) as [|n]; [lia|]. eexists; reflexivity. }
  destruct Hl as [lw Hl].
  eexists. split; [exact (optimize_ok _ _ _ _ _ _ HX Hs Hl) | reflexivity].
Qed.

Lemma weights_ignore_date_order_witness :
  columns series_a = columns series_a_reversed /\
  Permutation (values series_a) (values series_a_reversed) /\
  (2 <= length (values series_a))%nat /\
  exists rb,
    optimize_portfolio_dual_methods two_asset_exact identity_shrinkage
      series_a_reversed unit_box = Ok rb /\
    sample_weights rb = [3 / 4; 1 - 3 / 4].
Proof.
  assert (Hcols : columns series_a = columns series_a_reversed) by reflexivity.
  assert (Hperm : Permutation (values series_a) (values series_a_reversed)).
  { cbn. apply Permutation_rev. }
  assert (HT : (2 <= length (values series_a))%nat) by (simpl; lia).
  split; [exact Hcols|]. split; [exact Hperm|]. split; [exact HT|].
  exact (weights_ignore_date_order two_asset_exact identity_shrinkage unit_box
           series_a series_a_reversed _ Hcols Hperm HT optimize_series_a).
Defined.
